(** * A shallow embedding of src/pa3.c (virtual-memory simulator core)

    The C globals [current], [processes], [ptbr], [tlb[]] and [mapcounts[]]
    become the fields of [state]; each C function becomes a Rocq function
    that threads the state explicitly.

    Memory model.  A page-table page ([struct pte_directory]) is only ever
    reachable from the one [pdes] slot that [malloc] filled: the code never
    stores a directory pointer twice.  Every directory is therefore kept
    inline in its owning slot, paired with the address [malloc] returned
    for it.  [malloc] is a bump allocator over [brk], so that addresses can
    be compared (fresh versus existing).  The same counter gives addresses
    to the [struct process] objects that [switch_process] allocates, and
    [ptbr] records which process's [pagetable] it points into.

    The sizes from vm.h, which is not part of src/, are parameters.  Arrays
    are lists of their declared length.  [tlb[]] has NR_TLB_ENTRIES entries,
    [mapcounts[]] has NR_PAGEFRAMES, [pagetable.pdes[]] has
    NR_PDES_PER_PAGE and [ptes[]] has NR_PTES_PER_PAGE.  A loop
    [for (i = 0; i < N; i++)] over one of them runs over the list.
    An unsigned int is an [N] kept below 2^32; its wrap-around is written
    out with [u32].  A vpn is never the result of an arithmetic operation,
    so it is a [nat]. *)

From Stdlib Require Import NArith ZArith Lia.
From stdpp Require Import base list relations.

Local Open Scope N_scope.

(** ** Data model (vm.h) *)

Module PTE.
(** [struct pte] *)
Record pte := mk_pte {
  valid : bool;
  rw : N;
  private : N;
  pfn : N
}.
End PTE.
Abbreviation pte := PTE.pte.

Module TLBE.
(** [struct tlb_entry] *)
Record tlb_entry := mk_tlb_entry {
  valid : bool;
  vpn : nat;
  rw : N;
  pfn : N;
  private : N
}.
End TLBE.
Abbreviation tlb_entry := TLBE.tlb_entry.

(** A [pdes[]] slot: [NULL], or the address and entries of the
    page-table page it points to. *)
Abbreviation pd_slot := (option (nat * list pte)).

(** [struct process]: [paddr] is the address of the object itself. *)
Record process := mk_process {
  paddr : nat;
  pid : N;
  pdes : list pd_slot
}.

Record state := mk_state {
  current : process;
  processes : list process;   (* the ready queue, head first *)
  ptbr : nat;                 (* [&p->pagetable] for the process at this address *)
  tlb : list tlb_entry;
  mapcounts : list N;
  brk : nat                   (* next address [malloc] hands out *)
}.

Definition set_current (c : process) (s : state) : state :=
  mk_state c (processes s) (ptbr s) (tlb s) (mapcounts s) (brk s).
Definition set_processes (q : list process) (s : state) : state :=
  mk_state (current s) q (ptbr s) (tlb s) (mapcounts s) (brk s).
Definition set_ptbr (a : nat) (s : state) : state :=
  mk_state (current s) (processes s) a (tlb s) (mapcounts s) (brk s).
Definition set_tlb (t : list tlb_entry) (s : state) : state :=
  mk_state (current s) (processes s) (ptbr s) t (mapcounts s) (brk s).
Definition set_mapcounts (mc : list N) (s : state) : state :=
  mk_state (current s) (processes s) (ptbr s) (tlb s) mc (brk s).
Definition set_brk (b : nat) (s : state) : state :=
  mk_state (current s) (processes s) (ptbr s) (tlb s) (mapcounts s) b.
Definition set_pdes (ds : list pd_slot) (p : process) : process :=
  mk_process (paddr p) (pid p) ds.

(** Unsigned 32-bit wrap-around. *)
Definition u32 (x : N) : N := x mod 2 ^ 32.

(** [x - 1] on an unsigned int: [x + (2^32 - 1)] modulo 2^32. *)
Definition u32_dec (x : N) : N := u32 (x + (2 ^ 32 - 1)).

Definition ACCESS_READ : N := 1.
Definition ACCESS_WRITE : N := 2.

(** [(unsigned int) -1] *)
Definition UINT_NEG1 : N := 2 ^ 32 - 1.

Definition pte_zero : pte := PTE.mk_pte false 0 0 0.
Definition tlb_zero : tlb_entry := TLBE.mk_tlb_entry false 0 0 0 0.

(** [mapcounts[pfn]] read and written; out of range the read gives 0 and
    the write does nothing (undefined behaviour in C). *)
Definition mc_get (mc : list N) (pfn : N) : N := default 0 (mc !! N.to_nat pfn).
Definition mc_set (mc : list N) (pfn : N) (v : N) : list N := <[N.to_nat pfn := v]> mc.

Definition pte_set_rw (v : N) (p : pte) : pte :=
  PTE.mk_pte (PTE.valid p) v (PTE.private p) (PTE.pfn p).
Definition pte_set_private (v : N) (p : pte) : pte :=
  PTE.mk_pte (PTE.valid p) (PTE.rw p) v (PTE.pfn p).
Definition pte_set_pfn (v : N) (p : pte) : pte :=
  PTE.mk_pte (PTE.valid p) (PTE.rw p) (PTE.private p) v.
Definition pte_set_valid (v : bool) (p : pte) : pte :=
  PTE.mk_pte v (PTE.rw p) (PTE.private p) (PTE.pfn p).

(** [current->pagetable.pdes[d]], [NULL] as [None]. *)
Definition pd_of (p : process) (d : nat) : pd_slot := mjoin (pdes p !! d).

(** [&pd->ptes[e]] read through the slot [d] of [p]. *)
Definition pte_at (p : process) (d e : nat) : option pte :=
  pd_of p d ≫= fun pd => pd.2 !! e.

(** Write [f] over the entry [e] of the page-table page in slot [d]. *)
Definition update_pte (f : pte -> pte) (d e : nat) (p : process) : process :=
  set_pdes (alter (fmap (fun pd : nat * list pte => (pd.1, alter f e pd.2))) d (pdes p)) p.

(** The functions of [pa3.c] that read the page-table geometry. *)
Module Src.

Section VM.

Variable NR_PTES_PER_PAGE NR_PDES_PER_PAGE : nat.

(** [int page_dir_idx = vpn / NR_PTES_PER_PAGE;] *)
Definition page_dir_idx (vpn : nat) : nat := (vpn / NR_PTES_PER_PAGE)%nat.
(** [int page_entry_idx = vpn - page_dir_idx * NR_PTES_PER_PAGE;] *)
Definition page_entry_idx (vpn : nat) : nat :=
  (vpn - page_dir_idx vpn * NR_PTES_PER_PAGE)%nat.

(** The PTE for [vpn] in the page table of [p] ([None]: no directory). *)
Definition lookup_pte (p : process) (vpn : nat) : option pte :=
  pte_at p (page_dir_idx vpn) (page_entry_idx vpn).

(** [pd = malloc(...); current->pagetable.pdes[d] = pd;] where the new page
    holds [contents]. *)
Definition malloc_pd (d : nat) (contents : list pte) (s : state) : state :=
  let a := brk s in
  set_brk (S a)
    (set_current (set_pdes (<[d := Some (a, contents)]> (pdes (current s))) (current s)) s).

(** The page-table page [memset] to zero. *)
Definition zero_pd : list pte := replicate NR_PTES_PER_PAGE pte_zero.

(** *** [lookup_tlb] (lines 66-74): [Some pfn] is [return true] with [*pfn] set. *)
Fixpoint lookup_tlb (vpn : nat) (rw : N) (t : list tlb_entry) : option N :=
  match t with
  | [] => None
  | e :: t' =>
      if (TLBE.vpn e =? vpn)%nat && negb (N.land (TLBE.rw e) rw =? 0)
      then Some (TLBE.pfn e)
      else lookup_tlb vpn rw t'
  end.

(** *** [insert_tlb] (lines 88-114) *)
(** How the scanning loop ends: at an entry with the same vpn (the in-place
    update and [return]), at the first invalid entry ([idx = i; break;]),
    or after the last entry with [idx == -1]. *)
Inductive tlb_scan := Hit (i : nat) | Slot (i : nat) | Full.

Definition scan_shift (r : tlb_scan) : tlb_scan :=
  match r with Hit i => Hit (S i) | Slot i => Slot (S i) | Full => Full end.

Fixpoint insert_scan (vpn : nat) (t : list tlb_entry) : tlb_scan :=
  match t with
  | [] => Full
  | e :: t' =>
      if negb (TLBE.valid e) then Slot 0%nat
      else if (TLBE.vpn e =? vpn)%nat then Hit 0%nat
      else scan_shift (insert_scan vpn t')
  end.

Definition insert_tlb (vpn : nat) (rw pfn : N) (t : list tlb_entry) : list tlb_entry :=
  match insert_scan vpn t with
  | Hit i =>
      alter (fun e => TLBE.mk_tlb_entry true (TLBE.vpn e) rw pfn (TLBE.private e)) i t
  | Slot i =>
      alter (fun e => TLBE.mk_tlb_entry true vpn rw pfn (TLBE.private e)) i t
  | Full => t
  end.

(** *** [alloc_page] (lines 133-156) *)
(** The loop [for (pfn = 0; pfn < NR_PAGEFRAMES; pfn++) if (mapcounts[pfn] == 0)]. *)
Fixpoint alloc_scan (mc : list N) : option nat :=
  match mc with
  | [] => None
  | m :: mc' => if m =? 0 then Some 0%nat else S <$> alloc_scan mc'
  end.

(** [garbage] is what the [malloc] of line 144 returns: the code does not
    clear it, so its entries are whatever the memory held. *)
Definition alloc_page (vpn : nat) (rw : N) (garbage : list pte) (s : state) : N * state :=
  match alloc_scan (mapcounts s) with
  | None => (UINT_NEG1, s)
  | Some pfn =>
      let s := set_mapcounts (<[pfn := 1]> (mapcounts s)) s in
      let d := page_dir_idx vpn in
      let e := page_entry_idx vpn in
      let s := match pd_of (current s) d with
               | Some _ => s
               | None => malloc_pd d garbage s
               end in
      (N.of_nat pfn,
       set_current
         (update_pte (fun p => PTE.mk_pte true rw (PTE.private p) (N.of_nat pfn))
            d e (current s)) s)
  end.

(** *** [free_page] (lines 168-191) *)
Definition tlb_invalidate_pfn (pfn : N) (t : list tlb_entry) : list tlb_entry :=
  map (fun e =>
         if TLBE.valid e && (TLBE.pfn e =? pfn)
         then TLBE.mk_tlb_entry false (TLBE.vpn e) 0 0 (TLBE.private e)
         else e) t.

Definition free_page (vpn : nat) (s : state) : state :=
  let d := page_dir_idx vpn in
  let e := page_entry_idx vpn in
  match pte_at (current s) d e with
  | Some p =>
      if PTE.valid p then
        let s := set_mapcounts
                   (mc_set (mapcounts s) (PTE.pfn p) (u32_dec (mc_get (mapcounts s) (PTE.pfn p)))) s in
        let s := set_tlb (tlb_invalidate_pfn (PTE.pfn p) (tlb s)) s in
        set_current
          (update_pte (fun p => PTE.mk_pte false 0 (PTE.private p) 0) d e (current s)) s
      else s
  | None => s
  end.

(** *** [handle_page_fault] (lines 214-254) *)
Definition handle_page_fault (vpn : nat) (rw : N) (s : state) : bool * state :=
  let d := page_dir_idx vpn in
  let e := page_entry_idx vpn in
  let s := match pd_of (current s) d with
           | Some _ => s
           | None => malloc_pd d zero_pd s
           end in
  let pte := default pte_zero (pte_at (current s) d e) in
  if negb (PTE.valid pte) then
    (* the directory is present, so alloc_page does not reach its malloc *)
    let '(r, s) := alloc_page vpn rw zero_pd s in
    (negb (r =? UINT_NEG1), s)
  else if negb (PTE.rw pte =? rw) && negb (N.land rw ACCESS_WRITE =? 0) then
    if negb (N.land (PTE.rw pte) ACCESS_READ =? 0)
       && negb (N.land (PTE.private pte) ACCESS_WRITE =? 0) then
      if 1 <? mc_get (mapcounts s) (PTE.pfn pte) then
        let old_pfn := PTE.pfn pte in
        let '(new_pfn, s) := alloc_page vpn 3 zero_pd s in
        let s := set_mapcounts
                   (mc_set (mapcounts s) old_pfn (u32_dec (mc_get (mapcounts s) old_pfn))) s in
        let s := set_current
                   (update_pte (fun p => pte_set_rw (N.lor (PTE.rw p) ACCESS_WRITE) p) d e (current s)) s in
        let s := set_current (update_pte (pte_set_pfn new_pfn) d e (current s)) s in
        (true, s)
      else
        (true, set_current
                 (update_pte (fun p => pte_set_rw (N.lor (PTE.rw p) ACCESS_WRITE) p) d e (current s)) s)
    else (false, s)
  else (true, s).

(** *** [switch_process] (lines 275-334) *)
(** [list_for_each_entry(p, &processes, list) if (p->pid == pid) { next = p; break; }]:
    the position of [next] in the ready queue and [next] itself. *)
Fixpoint find_pid (pid0 : N) (q : list process) : option (nat * process) :=
  match q with
  | [] => None
  | p :: q' => if pid p =? pid0 then Some (0%nat, p)
               else (fun ip => (S ip.1, ip.2)) <$> find_pid pid0 q'
  end.

(** Body of the [j] loop (lines 297-311) for one entry [cur] of the parent:
    the parent's entry and the child's entry after it. *)
Definition fork_pte (cur : pte) : pte * pte :=
  let nxt := cur in
  if PTE.valid cur then
    let nxt := pte_set_valid true nxt in
    let '(cur, nxt) :=
      if PTE.private cur =? 0
      then (pte_set_private (PTE.rw cur) cur, pte_set_private (PTE.rw cur) nxt)
      else (cur, nxt) in
    let cur := pte_set_rw ACCESS_READ cur in
    let nxt := pte_set_rw ACCESS_READ nxt in
    let nxt := pte_set_pfn (PTE.pfn cur) nxt in
    (cur, nxt)
  else (cur, nxt).

(** The [j] loop over one page-table page of the parent: the parent's page,
    the child's page and [mapcounts] after it.  The child's page is
    [memset] to zero and then every one of its entries is assigned, so it
    is the list of the assigned entries. *)
Fixpoint fork_ptes (ptes : list pte) (mc : list N) : list pte * list pte * list N :=
  match ptes with
  | [] => ([], [], mc)
  | cur :: ptes' =>
      let '(cur', nxt) := fork_pte cur in
      let mc := if PTE.valid cur
                then mc_set mc (PTE.pfn nxt) (u32 (mc_get mc (PTE.pfn nxt) + 1))
                else mc in
      let '(ps, ns, mc) := fork_ptes ptes' mc in
      (cur' :: ps, nxt :: ns, mc)
  end.

(** The [i] loop over the parent's [pdes]: the parent's slots, the child's
    slots (a [NULL] parent slot stays [NULL] from the [memset]), the next
    free address and [mapcounts]. *)
Fixpoint fork_pdes (slots : list pd_slot) (b : nat) (mc : list N)
  : list pd_slot * list pd_slot * nat * list N :=
  match slots with
  | [] => ([], [], b, mc)
  | None :: slots' =>
      let '(ps, cs, b, mc) := fork_pdes slots' b mc in
      (None :: ps, None :: cs, b, mc)
  | Some (a, ptes) :: slots' =>
      let '(ptes', cptes, mc) := fork_ptes ptes mc in
      let '(ps, cs, b', mc) := fork_pdes slots' (S b) mc in
      (Some (a, ptes') :: ps, Some (b, cptes) :: cs, b', mc)
  end.

(** Lines 321-330: the loop stops at the first invalid entry. *)
Fixpoint flush_tlb (t : list tlb_entry) : list tlb_entry :=
  match t with
  | [] => []
  | e :: t' => if negb (TLBE.valid e) then t else tlb_zero :: flush_tlb t'
  end.

Definition switch_process (pid0 : N) (s : state) : state :=
  let '(next, s) :=
    match find_pid pid0 (processes s) with
    | Some (i, p) => (p, set_processes (delete i (processes s)) s)
    | None =>
        let a := brk s in
        let cur := current s in
        let '(ppdes, cpdes, b, mc) := fork_pdes (pdes cur) (S a) (mapcounts s) in
        (mk_process a pid0 cpdes,
         set_brk b (set_mapcounts mc (set_current (set_pdes ppdes cur) s)))
    end in
  let s := set_tlb (flush_tlb (tlb s)) s in
  let s := set_processes (processes s ++ [current s]) s in
  let s := set_current next s in
  set_ptbr (paddr next) s.

(** Modelled from the spec: the start-up state set up by the framework
    (vm.c, not part of src/).  One running process with an empty page table,
    an empty ready queue, and the zero-initialised globals [tlb[]] and
    [mapcounts[]]. *)
Definition init_state (pid0 : N) (nframes ntlb : nat) : state :=
  mk_state (mk_process 0 pid0 (replicate NR_PDES_PER_PAGE None)) [] 0
    (replicate ntlb tlb_zero) (replicate nframes 0) 1.

(** ** Definitions for the properties *)

(** A vpn inside the two-level address space. *)
Definition in_range (vpn : nat) : Prop :=
  (vpn < NR_PDES_PER_PAGE * NR_PTES_PER_PAGE)%nat.

(** The array sizes of [struct process]: [pdes[]] has NR_PDES_PER_PAGE
    slots and every page-table page NR_PTES_PER_PAGE entries. *)
Definition wf_proc (p : process) : Prop :=
  length (pdes p) = NR_PDES_PER_PAGE /\
  forall d pd, pdes p !! d = Some (Some pd) -> length pd.2 = NR_PTES_PER_PAGE.

(** Addresses of the page-table pages of a [pdes[]] array, slot order. *)
Definition pd_addrs (slots : list pd_slot) : list nat :=
  omap (fun slot : pd_slot => fst <$> slot) slots.

(** The live processes: the running one and the ready queue. *)
Definition live (s : state) : list process := current s :: processes s.

(** Whether a PTE is a live mapping of frame [f]. *)
Definition maps_to (f : nat) (p : pte) : bool :=
  PTE.valid p && (PTE.pfn p =? N.of_nat f).

(** Number of entries of a page-table page that map frame [f]. *)
Definition count_ptes (f : nat) (ptes : list pte) : nat :=
  sum_list_with (fun p => if maps_to f p then 1%nat else 0%nat) ptes.

Definition count_slot (f : nat) (slot : pd_slot) : nat :=
  match slot with
  | Some pd => count_ptes f pd.2
  | None => 0%nat
  end.

(** Number of valid PTEs of [p] that map frame [f]. *)
Definition count_proc (f : nat) (p : process) : nat :=
  sum_list_with (count_slot f) (pdes p).

(** Number of valid PTEs of all live processes that map frame [f]. *)
Definition nmappings (s : state) (f : nat) : nat :=
  sum_list_with (count_proc f) (live s).

(** The refcount invariant as the spec states it. *)
Definition refcount_conserved (s : state) : Prop :=
  forall f, (f < length (mapcounts s))%nat ->
            mapcounts s !! f = Some (N.of_nat (nmappings s f)).

(** The same, read on 32-bit unsigned counters. *)
Definition refcount_conserved_u32 (s : state) : Prop :=
  forall f, (f < length (mapcounts s))%nat ->
            mapcounts s !! f = Some (u32 (N.of_nat (nmappings s f))).

(** The invariant carried by the reachable states: the counters agree with
    the mappings and every live page table has its array sizes. *)
Definition vm_inv (s : state) : Prop :=
  refcount_conserved_u32 s /\ Forall wf_proc (live s).

(** No entry of a page-table page is valid. *)
Definition all_invalid (ptes : list pte) : Prop :=
  Forall (fun p => PTE.valid p = false) ptes.

(** [handle_page_fault] reaches the copy-on-write [alloc_page] of line 239:
    the PTE is valid, the access differs from [rw] and has WRITE (line 234),
    [rw] has READ and [private] has WRITE (line 235), and the frame is
    shared (line 236).  A missing directory reads as the zeroed page of
    lines 221-225. *)
Definition cow_copies (vpn : nat) (rw : N) (s : state) : bool :=
  let pte := default pte_zero (lookup_pte (current s) vpn) in
  PTE.valid pte && negb (PTE.rw pte =? rw) && negb (N.land rw ACCESS_WRITE =? 0)
  && negb (N.land (PTE.rw pte) ACCESS_READ =? 0)
  && negb (N.land (PTE.private pte) ACCESS_WRITE =? 0)
  && (1 <? mc_get (mapcounts s) (PTE.pfn pte)).

(** [handle_page_fault] calls [alloc_page]: at line 230 (PTE not valid)
    or at line 239 (copy on write). *)
Definition fault_allocates (vpn : nat) (rw : N) (s : state) : bool :=
  negb (PTE.valid (default pte_zero (lookup_pte (current s) vpn))) || cow_copies vpn rw s.

(** The operations of the claim: in-range vpns, no allocation failure
    ([alloc_page] does not return [-1]; a page fault that calls [alloc_page]
    is taken while a free frame exists), any pid, and any contents of the
    page [malloc] returns. *)
Inductive vm_step : state -> state -> Prop :=
| vs_alloc vpn rw garbage s :
    in_range vpn -> length garbage = NR_PTES_PER_PAGE ->
    fst (alloc_page vpn rw garbage s) <> UINT_NEG1 ->
    vm_step s (snd (alloc_page vpn rw garbage s))
| vs_free vpn s :
    in_range vpn -> vm_step s (free_page vpn s)
| vs_fault vpn rw s :
    in_range vpn -> (fault_allocates vpn rw s = true -> alloc_scan (mapcounts s) <> None) ->
    vm_step s (snd (handle_page_fault vpn rw s))
| vs_switch pid0 s :
    vm_step s (switch_process pid0 s).

(** The same operations where [alloc_page] is only applied to a vpn whose
    PTE is not valid, and the page its [malloc] returns reads as zeroed.  A
    page fault is admitted whenever it does not reach the copy-on-write
    [alloc_page] with no free frame: a failing first touch, the in-place
    upgrade and the protection violation are all steps. *)
Inductive vm_step_fresh : state -> state -> Prop :=
| vf_alloc vpn rw garbage s :
    in_range vpn -> length garbage = NR_PTES_PER_PAGE -> all_invalid garbage ->
    (forall p, lookup_pte (current s) vpn = Some p -> PTE.valid p = false) ->
    vm_step_fresh s (snd (alloc_page vpn rw garbage s))
| vf_free vpn s :
    in_range vpn -> vm_step_fresh s (free_page vpn s)
| vf_fault vpn rw s :
    in_range vpn -> (cow_copies vpn rw s = true -> alloc_scan (mapcounts s) <> None) ->
    vm_step_fresh s (snd (handle_page_fault vpn rw s))
| vf_switch pid0 s :
    vm_step_fresh s (switch_process pid0 s).

End VM.
End Src.
Export Src.

(** ** TLB shapes *)

(** Every invalid TLB entry carries no access bits.  Each reset of an entry
    in pa3.c writes [rw = 0] together with [valid = false]. *)
Definition tlb_clean (t : list tlb_entry) : bool :=
  forallb (fun e => TLBE.valid e || (TLBE.rw e =? 0)) t.

(** The valid TLB entries form a prefix: no valid entry follows an invalid
    one. *)
Fixpoint tlb_packed (t : list tlb_entry) : bool :=
  match t with
  | [] => true
  | e :: t' => if TLBE.valid e then tlb_packed t' else forallb (fun e => negb (TLBE.valid e)) t'
  end.


(** ** Sample inputs (16 entries per page-table page, one directory slot) *)

(** Process 1 touched vpn 0 and vpn 5 for writing and both translations
    were cached, as the framework does after a successful fault. *)
Definition s_two : state :=
  let s := init_state 1 1 4 4 in
  let s := snd (handle_page_fault 16 0 ACCESS_WRITE s) in
  let s := set_tlb (insert_tlb 0 ACCESS_WRITE 0 (tlb s)) s in
  let s := snd (handle_page_fault 16 5 ACCESS_WRITE s) in
  set_tlb (insert_tlb 5 ACCESS_WRITE 1 (tlb s)) s.

(** Then vpn 0 is freed: its TLB entry, slot 0, becomes a hole in front of
    the entry for vpn 5. *)
Definition s_hole : state := free_page 16 0 s_two.

(** One frame only: process 1 writes vpn 0 (frame 0), then forks process 2,
    which shares frame 0 (mapcount 2); no frame is free. *)
Definition s_full : state :=
  let s := init_state 1 1 1 4 in
  let s := snd (handle_page_fault 16 0 ACCESS_WRITE s) in
  switch_process 2 s.

(** Process 1 faults vpn 0 in with READ|WRITE and has never forked. *)
Definition s_rw : state :=
  snd (handle_page_fault 16 0 (N.lor ACCESS_READ ACCESS_WRITE) (init_state 1 1 4 4)).

(** Scenario B of the spec: process 1 writes vpn 0 (frame 0) and forks
    process 2, which is now running; frame 0 has mapcount 2. *)
Definition s_one : state :=
  snd (handle_page_fault 16 0 ACCESS_WRITE (init_state 1 1 4 4)).

Definition s_cow : state := switch_process 2 s_one.

Section Proofs.

Variable NR_PTES_PER_PAGE NR_PDES_PER_PAGE : nat.

Local Abbreviation page_dir_idx := (page_dir_idx NR_PTES_PER_PAGE).
Local Abbreviation page_entry_idx := (page_entry_idx NR_PTES_PER_PAGE).
Local Abbreviation lookup_pte := (lookup_pte NR_PTES_PER_PAGE).
Local Abbreviation zero_pd := (zero_pd NR_PTES_PER_PAGE).
Local Abbreviation alloc_page := (alloc_page NR_PTES_PER_PAGE).
Local Abbreviation free_page := (free_page NR_PTES_PER_PAGE).
Local Abbreviation handle_page_fault := (handle_page_fault NR_PTES_PER_PAGE).
Local Abbreviation in_range := (in_range NR_PTES_PER_PAGE NR_PDES_PER_PAGE).
Local Abbreviation wf_proc := (wf_proc NR_PTES_PER_PAGE NR_PDES_PER_PAGE).
Local Abbreviation vm_inv := (vm_inv NR_PTES_PER_PAGE NR_PDES_PER_PAGE).
Local Abbreviation vm_step_fresh := (vm_step_fresh NR_PTES_PER_PAGE NR_PDES_PER_PAGE).
Local Abbreviation cow_copies := (cow_copies NR_PTES_PER_PAGE).
Local Abbreviation init_state := (init_state NR_PDES_PER_PAGE).

(** *** Page-table access *)

Lemma pd_of_update h d e p d' :
  pd_of (update_pte h d e p) d' =
  if decide (d = d') then (fun pd : nat * list pte => (pd.1, alter h e pd.2)) <$> pd_of p d'
  else pd_of p d'.
Proof.
  unfold pd_of, update_pte, set_pdes; cbn [pdes].
  case_decide as Hd.
  - subst. rewrite list_lookup_alter_eq. destruct (pdes p !! d') as [[]|]; reflexivity.
  - by rewrite list_lookup_alter_ne.
Qed.

Lemma pte_at_update_eq h d e p :
  pte_at (update_pte h d e p) d e = h <$> pte_at p d e.
Proof.
  unfold pte_at. rewrite pd_of_update, decide_True by done.
  destruct (pd_of p d) as [[a ptes]|]; simpl; [|done].
  apply list_lookup_alter_eq.
Qed.

Lemma pte_at_update_ne h d e p d' e' :
  (d, e) <> (d', e') -> pte_at (update_pte h d e p) d' e' = pte_at p d' e'.
Proof.
  intros Hne. unfold pte_at. rewrite pd_of_update.
  case_decide as Hd; [subst|done].
  destruct (pd_of p d') as [[a ptes]|]; simpl; [|done].
  rewrite list_lookup_alter_ne; [done|]. congruence.
Qed.

Lemma pdes_length_update h d e p :
  length (pdes (update_pte h d e p)) = length (pdes p).
Proof. unfold update_pte, set_pdes; simpl. apply length_alter. Qed.

Lemma page_entry_idx_lt vpn :
  (0 < NR_PTES_PER_PAGE)%nat -> (page_entry_idx vpn < NR_PTES_PER_PAGE)%nat.
Proof.
  intros H. unfold Src.page_entry_idx, Src.page_dir_idx.
  pose proof (Nat.div_mod vpn NR_PTES_PER_PAGE ltac:(lia)).
  pose proof (Nat.mod_upper_bound vpn NR_PTES_PER_PAGE ltac:(lia)). nia.
Qed.

Lemma in_range_idx vpn :
  in_range vpn ->
  (0 < NR_PTES_PER_PAGE)%nat /\ (page_dir_idx vpn < NR_PDES_PER_PAGE)%nat /\
  (page_entry_idx vpn < NR_PTES_PER_PAGE)%nat.
Proof.
  unfold Src.in_range. intros H.
  assert (0 < NR_PTES_PER_PAGE)%nat by (destruct NR_PTES_PER_PAGE; lia).
  split; [done|split; [|by apply page_entry_idx_lt]].
  unfold Src.page_dir_idx. apply Nat.Div0.div_lt_upper_bound. lia.
Qed.

(** *** [alloc_scan] finds the smallest free frame *)

Lemma alloc_scan_some mc f :
  alloc_scan mc = Some f ->
  mc !! f = Some 0 /\ forall g, (g < f)%nat -> mc !! g <> Some 0.
Proof.
  revert f. induction mc as [|m mc IH]; intros f; simpl; [done|].
  destruct (N.eqb_spec m 0) as [->|Hm].
  - intros [= <-]. split; [done|lia].
  - destruct (alloc_scan mc) as [f'|] eqn:E; simpl; [|done].
    intros [= <-]. destruct (IH f' eq_refl) as [H1 H2]. split; [done|].
    intros [|g] Hg; simpl; [congruence|]. apply H2; lia.
Qed.

Lemma alloc_scan_none mc :
  alloc_scan mc = None -> forall f, mc !! f <> Some 0.
Proof.
  induction mc as [|m mc IH]; simpl; [done|].
  destruct (N.eqb_spec m 0); [done|].
  destruct (alloc_scan mc); simpl; [done|].
  intros _ [|f]; simpl; [congruence|]. by apply IH.
Qed.

Lemma alloc_scan_smallest mc f :
  mc !! f = Some 0 -> (forall g, (g < f)%nat -> mc !! g <> Some 0) ->
  alloc_scan mc = Some f.
Proof.
  intros Hf Hlt. destruct (alloc_scan mc) as [f'|] eqn:E.
  - apply alloc_scan_some in E as [H1 H2].
    destruct (Nat.lt_trichotomy f f') as [?|[?|?]]; [|congruence|].
    + exfalso. by apply (H2 f).
    + exfalso. by apply (Hlt f').
  - exfalso. by apply (alloc_scan_none mc E f).
Qed.

Lemma pd_of_Some_length p d pd :
  wf_proc p -> pd_of p d = Some pd -> length pd.2 = NR_PTES_PER_PAGE.
Proof.
  intros [_ Hpd] E. unfold pd_of in E.
  destruct (pdes p !! d) as [[pd'|]|] eqn:E'; simpl in E; try done.
  injection E as <-. eauto.
Qed.

Lemma pd_of_malloc d c s :
  (d < length (pdes (current s)))%nat ->
  pd_of (current (malloc_pd d c s)) d = Some (brk s, c).
Proof.
  intros Hd. unfold pd_of, malloc_pd, set_pdes; simpl.
  by rewrite list_lookup_insert_eq.
Qed.

(** The entry [alloc_page] writes exists once the directory is in place. *)
Lemma alloc_target vpn garbage s :
  wf_proc (current s) -> in_range vpn -> length garbage = NR_PTES_PER_PAGE ->
  is_Some (pte_at (current (match pd_of (current s) (page_dir_idx vpn) with
                            | Some _ => s
                            | None => malloc_pd (page_dir_idx vpn) garbage s
                            end)) (page_dir_idx vpn) (page_entry_idx vpn)).
Proof.
  intros Hwf Hr Hg. destruct (in_range_idx vpn Hr) as (HN & Hd & He).
  destruct (pd_of (current s) (page_dir_idx vpn)) as [pd|] eqn:E.
  - unfold pte_at. rewrite E; simpl. apply lookup_lt_is_Some_2.
    erewrite pd_of_Some_length by eauto. done.
  - unfold pte_at. rewrite pd_of_malloc; simpl.
    + apply lookup_lt_is_Some_2. lia.
    + destruct Hwf as [Hl _]. lia.
Qed.

(** *** C8 *)

(** C8: when some frame has mapcount 0, [alloc_page] returns the
    smallest such frame, sets its mapcount to 1 and makes the PTE of [vpn]
    in the running process valid, mapping that frame with the requested
    [rw] (the directory page is allocated first if it was absent).  When no
    frame is free it returns [(unsigned)-1] and leaves the state as it was. *)
Theorem alloc_page_smallest_free (vpn : nat) (rw : N) (garbage : list pte) (s : state) :
  wf_proc (current s) -> in_range vpn -> length garbage = NR_PTES_PER_PAGE ->
  (forall f, mapcounts s !! f = Some 0 ->
     (forall g, (g < f)%nat -> mapcounts s !! g <> Some 0) ->
     fst (alloc_page vpn rw garbage s) = N.of_nat f /\
     mapcounts (snd (alloc_page vpn rw garbage s)) = <[f := 1]> (mapcounts s) /\
     exists p, lookup_pte (current (snd (alloc_page vpn rw garbage s))) vpn = Some p /\
               PTE.valid p = true /\ PTE.pfn p = N.of_nat f /\ PTE.rw p = rw) /\
  ((forall f, mapcounts s !! f <> Some 0) ->
   alloc_page vpn rw garbage s = (UINT_NEG1, s)).
Proof.
  intros Hwf Hr Hg. split.
  - intros f Hf Hlt. unfold Src.alloc_page.
    rewrite (alloc_scan_smallest _ _ Hf Hlt).
    pose proof (alloc_target vpn garbage (set_mapcounts (<[f:=1]> (mapcounts s)) s)
                  Hwf Hr Hg) as [old Hold].
    simpl in Hold |- *.
    destruct (pd_of (current s) (page_dir_idx vpn)); simpl in Hold |- *;
      (split; [done|split; [done|]]);
      unfold Src.lookup_pte; simpl; rewrite pte_at_update_eq, Hold;
      simpl; eexists; done.
  - intros Hnone. unfold Src.alloc_page.
    destruct (alloc_scan (mapcounts s)) as [f|] eqn:E; [|done].
    exfalso. apply alloc_scan_some in E as [E _]. by apply (Hnone f).
Qed.

(** *** C9 *)

(** C9: [free_page] on a vpn whose PTE in the running process is not valid,
    or whose directory page is absent, leaves the whole state unchanged:
    no mapcount, TLB entry or PTE field is touched. *)
Theorem free_page_invalid_noop (vpn : nat) (s : state) :
  (forall p, lookup_pte (current s) vpn = Some p -> PTE.valid p = false) ->
  free_page vpn s = s.
Proof.
  intros Hinv. unfold Src.free_page. unfold Src.lookup_pte in Hinv.
  destruct (pte_at (current s) _ _) as [p|] eqn:E; [|done].
  by rewrite (Hinv p eq_refl).
Qed.

(** *** C10 *)

(** C10: [switch_process] only searches the ready queue, so switching to
    the running process's own pid (absent from the queue) forks: a new
    process at a fresh address becomes current with the same pid, and the
    old one, with that pid too, goes to the tail of the ready queue. *)
Theorem switch_own_pid_forks (s : state) :
  find_pid (pid (current s)) (processes s) = None ->
  (paddr (current s) < brk s)%nat ->
  let s' := switch_process (pid (current s)) s in
  paddr (current s') = brk s /\ pid (current s') = pid (current s) /\
  exists q, processes s' = processes s ++ [q] /\
            paddr q = paddr (current s) /\ pid q = pid (current s) /\
            paddr q <> paddr (current s').
Proof.
  intros Hnone Hlt. unfold switch_process. rewrite Hnone.
  destruct (fork_pdes (pdes (current s)) (S (brk s)) (mapcounts s))
    as [[[pp cp] b] mc]; simpl.
  split; [done|]. split; [done|].
  eexists. split; [reflexivity|]. simpl. split; [done|]. split; [done|]. lia.
Qed.

(** *** Copy-on-write faults *)

Lemma lookup_pte_pd_of p vpn x :
  lookup_pte p vpn = Some x -> exists pd, pd_of p (page_dir_idx vpn) = Some pd.
Proof.
  unfold Src.lookup_pte, pte_at. destruct (pd_of p _) as [pd|]; simpl; [|done].
  eauto.
Qed.

Lemma mc_get_of_nat mc g : mc_get mc (N.of_nat g) = default 0 (mc !! g).
Proof. unfold mc_get. by rewrite Nat2N.id. Qed.

Lemma u32_dec_small m : 1 <= m -> m < 2 ^ 32 -> u32_dec m = m - 1.
Proof.
  intros H1 H2. unfold u32_dec, u32.
  replace (m + (2 ^ 32 - 1)) with ((m - 1) + 1 * 2 ^ 32) by lia.
  rewrite N.Div0.mod_add. apply N.mod_small. lia.
Qed.

(** X19: a WRITE fault on a valid PTE whose [rw] has READ but not
    WRITE and whose [private] has WRITE succeeds and leaves the ready queue
    and the TLB alone.  If the frame's mapcount is above 1 and a frame is
    free, the smallest free frame gets mapcount 1, the old frame's mapcount
    drops by one, and the PTE maps the new frame read-write.  If the
    mapcount is at most 1, only [rw] gains WRITE in place. *)
Theorem cow_write_fault (vpn : nat) (s : state) (p : pte) :
  lookup_pte (current s) vpn = Some p -> PTE.valid p = true ->
  N.land (PTE.rw p) ACCESS_READ <> 0 -> N.land (PTE.rw p) ACCESS_WRITE = 0 ->
  N.land (PTE.private p) ACCESS_WRITE <> 0 ->
  mc_get (mapcounts s) (PTE.pfn p) < 2 ^ 32 ->
  let r := handle_page_fault vpn ACCESS_WRITE s in
  fst r = true /\ processes (snd r) = processes s /\ tlb (snd r) = tlb s /\
  (1 < mc_get (mapcounts s) (PTE.pfn p) ->
   forall g, alloc_scan (mapcounts s) = Some g ->
     mapcounts s !! g = Some 0 /\ N.of_nat g <> PTE.pfn p /\
     mapcounts (snd r) !! g = Some 1 /\
     mapcounts (snd r) !! N.to_nat (PTE.pfn p) = Some (mc_get (mapcounts s) (PTE.pfn p) - 1) /\
     (forall f, f <> g -> f <> N.to_nat (PTE.pfn p) -> mapcounts (snd r) !! f = mapcounts s !! f) /\
     lookup_pte (current (snd r)) vpn =
       Some (PTE.mk_pte true (N.lor ACCESS_READ ACCESS_WRITE) (PTE.private p) (N.of_nat g))) /\
  (mc_get (mapcounts s) (PTE.pfn p) <= 1 ->
   snd r = set_current (update_pte (fun q => pte_set_rw (N.lor (PTE.rw q) ACCESS_WRITE) q)
                          (page_dir_idx vpn) (page_entry_idx vpn) (current s)) s /\
   lookup_pte (current (snd r)) vpn = Some (pte_set_rw (N.lor (PTE.rw p) ACCESS_WRITE) p)).
Proof.
  intros Hp Hv Hread Hwrite Hpriv Hbound r.
  destruct (lookup_pte_pd_of _ _ _ Hp) as [pd Hpd].
  unfold Src.lookup_pte in Hp.
  assert (Hrw : (PTE.rw p =? ACCESS_WRITE) = false).
  { apply N.eqb_neq. intros E. rewrite E in Hwrite. discriminate. }
  subst r. unfold Src.handle_page_fault. rewrite Hpd, Hp. cbn [default from_option id]. cbv zeta.
  rewrite Hv, Hrw. cbn [negb andb].
  replace (N.land ACCESS_WRITE ACCESS_WRITE =? 0) with false by reflexivity.
  apply N.eqb_neq in Hread, Hpriv. rewrite Hread, Hpriv. cbn [negb andb].
  destruct (N.ltb_spec 1 (mc_get (mapcounts s) (PTE.pfn p))) as [Hgt|Hle].
  - (* the copy *)
    destruct (alloc_scan (mapcounts s)) as [g|] eqn:Hg.
    + unfold Src.alloc_page. rewrite Hg. cbn [fst snd current set_current set_mapcounts].
      rewrite Hpd. cbv iota beta.
      apply alloc_scan_some in Hg as [Hg0 _].
      assert (Hne : N.of_nat g <> PTE.pfn p).
      { intros E. rewrite <- E, mc_get_of_nat, Hg0 in Hgt. simpl in Hgt. lia. }
      assert (Hne' : g <> N.to_nat (PTE.pfn p)).
      { intros E. apply Hne. rewrite E. apply N2Nat.id. }
      assert (Hmc1 : mc_get (<[g:=1]> (mapcounts s)) (PTE.pfn p) = mc_get (mapcounts s) (PTE.pfn p)).
      { unfold mc_get. by rewrite list_lookup_insert_ne. }
      assert (Hold : (N.to_nat (PTE.pfn p) < length (mapcounts s))%nat).
      { apply lookup_lt_is_Some_1. unfold mc_get in Hgt.
        destruct (mapcounts s !! N.to_nat (PTE.pfn p)); simpl in Hgt; [done|lia]. }
      cbn [fst snd processes tlb set_current set_mapcounts mapcounts current].
      split; [done|]. split; [done|]. split; [done|]. split.
      * intros _ g' Hg'. injection Hg' as <-. split; [done|]. split; [done|].
        unfold mc_set. rewrite Hmc1. split; [|split; [|split]].
        -- rewrite list_lookup_insert_ne by done. apply list_lookup_insert_eq.
           by eapply lookup_lt_Some.
        -- rewrite list_lookup_insert_eq by (rewrite length_insert; done).
           f_equal. apply u32_dec_small; lia.
        -- intros f Hf1 Hf2. rewrite !list_lookup_insert_ne by done. done.
        -- unfold Src.lookup_pte.
           rewrite !pte_at_update_eq, Hp. reflexivity.
      * intros Hle. lia.
    + unfold Src.alloc_page. rewrite Hg.
      cbn [fst snd processes tlb set_current set_mapcounts mapcounts current].
      split; [done|]. split; [done|]. split; [done|]. split.
      * intros _ g' Hg'. discriminate.
      * intros Hle. lia.
  - (* in place *)
    cbn [fst snd processes tlb set_current current].
    split; [done|]. split; [done|]. split; [done|]. split.
    + intros Hgt. lia.
    + intros _. split; [done|].
      unfold Src.lookup_pte. rewrite pte_at_update_eq, Hp. reflexivity.
Qed.

(** *** Forking *)

Lemma fork_pte_pfn x : PTE.pfn (fork_pte x).2 = PTE.pfn x /\ PTE.pfn (fork_pte x).1 = PTE.pfn x.
Proof.
  unfold fork_pte. destruct (PTE.valid x); [|done].
  destruct (PTE.private x =? 0); done.
Qed.

Lemma fork_pte_valid x :
  PTE.valid (fork_pte x).1 = PTE.valid x /\ PTE.valid (fork_pte x).2 = PTE.valid x.
Proof.
  unfold fork_pte. destruct (PTE.valid x) eqn:E; [|done].
  destruct (PTE.private x =? 0); done.
Qed.

Lemma maps_to_fork f x :
  maps_to f (fork_pte x).1 = maps_to f x /\ maps_to f (fork_pte x).2 = maps_to f x.
Proof.
  unfold maps_to. destruct (fork_pte_pfn x) as [H1 H2]. destruct (fork_pte_valid x) as [H3 H4].
  by rewrite H1, H2, H3, H4.
Qed.

Lemma count_ptes_cons f x ptes :
  count_ptes f (x :: ptes) = ((if maps_to f x then 1 else 0) + count_ptes f ptes)%nat.
Proof. done. Qed.

Lemma count_ptes_fork f ptes :
  count_ptes f (fork_pte <$> ptes).*1 = count_ptes f ptes /\
  count_ptes f (fork_pte <$> ptes).*2 = count_ptes f ptes.
Proof.
  induction ptes as [|x ptes [IH1 IH2]]; [done|].
  rewrite !fmap_cons, !count_ptes_cons, IH1, IH2.
  by destruct (maps_to_fork f x) as [-> ->].
Qed.

Lemma u32_lt x : u32 x < 2 ^ 32.
Proof. unfold u32. apply N.mod_lt. discriminate. Qed.

Lemma u32_small x : x < 2 ^ 32 -> u32 x = x.
Proof. unfold u32. apply N.mod_small. Qed.

Lemma u32_add_l x y : u32 (u32 x + y) = u32 (x + y).
Proof. unfold u32. apply N.Div0.add_mod_idemp_l. Qed.

(** The [j] loop: the entries after it, and each frame's mapcount raised
    once per valid entry mapping it. *)
Lemma fork_ptes_spec ptes mc :
  (forall f m, mc !! f = Some m -> m < 2 ^ 32) ->
  let '(ps, ns, mc') := fork_ptes ptes mc in
  ps = (fork_pte <$> ptes).*1 /\ ns = (fork_pte <$> ptes).*2 /\
  (forall f m, mc' !! f = Some m -> m < 2 ^ 32) /\
  forall f, mc' !! f = (fun m => u32 (m + N.of_nat (count_ptes f ptes))) <$> mc !! f.
Proof.
  revert mc. induction ptes as [|x ptes IH]; intros mc Hb; cbn [fork_ptes].
  - split; [done|]. split; [done|]. split; [done|].
    intros f. destruct (mc !! f) eqn:E; cbn; [|done].
    rewrite N.add_0_r, u32_small; eauto.
  - destruct (fork_pte x) as [c n] eqn:Ex.
    set (mc1 := if PTE.valid x then mc_set mc (PTE.pfn n) (u32 (mc_get mc (PTE.pfn n) + 1)) else mc).
    assert (Hb1 : forall f m, mc1 !! f = Some m -> m < 2 ^ 32).
    { intros f m. subst mc1. destruct (PTE.valid x); [|apply Hb].
      unfold mc_set. rewrite list_lookup_insert_Some.
      intros [[_ [<- _]]|[_ H]]; [apply u32_lt|eauto]. }
    specialize (IH mc1 Hb1).
    destruct (fork_ptes ptes mc1) as [[ps ns] mc'].
    destruct IH as (-> & -> & Hb' & Hmc).
    rewrite !fmap_cons, Ex. split; [done|]. split; [done|]. split; [done|].
    intros f. rewrite Hmc, count_ptes_cons.
    assert (Hn : PTE.pfn n = PTE.pfn x).
    { pose proof (fork_pte_pfn x) as [H _]. by rewrite Ex in H. }
    unfold maps_to. subst mc1.
    destruct (PTE.valid x) eqn:Hv; simpl.
    + rewrite Hn. unfold mc_set, mc_get.
      destruct (decide (N.to_nat (PTE.pfn x) = f)) as [<-|Hne].
      * replace (N.of_nat (N.to_nat (PTE.pfn x))) with (PTE.pfn x)
          by (symmetry; apply N2Nat.id). rewrite N.eqb_refl.
        destruct (mc !! N.to_nat (PTE.pfn x)) as [m|] eqn:E.
        -- rewrite list_lookup_insert_eq by (eapply lookup_lt_Some; eauto).
           simpl. f_equal. rewrite u32_add_l. f_equal. lia.
        -- rewrite list_insert_ge by (by apply lookup_ge_None). by rewrite E.
      * rewrite list_lookup_insert_ne by done.
        replace (PTE.pfn x =? N.of_nat f) with false; [done|].
        symmetry. apply N.eqb_neq. intros E. apply Hne. rewrite E. apply Nat2N.id.
    + done.
Qed.

(** The [i] loop: parent slots rewritten in place, child slots holding the
    other half of each pair at the addresses [b, b+1, ...] in slot order,
    and each mapcount raised by the number of entries mapping the frame. *)
Lemma fork_pdes_spec slots b mc :
  (forall f m, mc !! f = Some m -> m < 2 ^ 32) ->
  let '(ps, cs, b', mc') := fork_pdes slots b mc in
  ps = fmap (M:=list) (fmap (M:=option)
         (fun pd : nat * list pte => (pd.1, (fmap (M:=list) fork_pte pd.2).*1))) slots /\
  fmap (M:=list) (fmap (M:=option) snd) cs =
    fmap (M:=list) (fmap (M:=option)
      (fun pd : nat * list pte => (fmap (M:=list) fork_pte pd.2).*2)) slots /\
  pd_addrs cs = seq b (b' - b) /\ (b <= b')%nat /\
  (forall f m, mc' !! f = Some m -> m < 2 ^ 32) /\
  forall f, mc' !! f =
    (fun m => u32 (m + N.of_nat (sum_list_with (count_slot f) slots))) <$> mc !! f.
Proof.
  revert b mc. induction slots as [|[[a ptes]|] slots IH]; intros b mc Hb; cbn [fork_pdes].
  - split; [done|]. split; [done|]. rewrite Nat.sub_diag.
    split; [done|]. split; [done|]. split; [done|].
    intros f. destruct (mc !! f) eqn:E; cbn; [|done].
    rewrite N.add_0_r, u32_small; eauto.
  - pose proof (fork_ptes_spec ptes mc Hb) as Hp.
    destruct (fork_ptes ptes mc) as [[ps1 ns1] mc1].
    destruct Hp as (-> & -> & Hb1 & Hmc1).
    specialize (IH (S b) mc1 Hb1).
    destruct (fork_pdes slots (S b) mc1) as [[[ps cs] b'] mc'].
    destruct IH as (-> & Hcs & Hseq & Hle & Hb' & Hmc).
    rewrite !fmap_cons. split; [done|]. split; [by rewrite Hcs|].
    split; [|split; [lia|split; [done|]]].
    + unfold pd_addrs in *. cbn [omap list_omap]. cbn. rewrite Hseq.
      replace (b' - b)%nat with (S (b' - S b)) by lia. done.
    + intros f. rewrite Hmc, Hmc1.
      destruct (mc !! f); cbn; [|done]. f_equal.
      rewrite u32_add_l. f_equal. fold (count_ptes f ptes). lia.
  - specialize (IH b mc Hb).
    destruct (fork_pdes slots b mc) as [[[ps cs] b'] mc'].
    destruct IH as (-> & Hcs & Hseq & Hle & Hb' & Hmc).
    rewrite !fmap_cons. split; [done|]. split; [by rewrite Hcs|].
    split; [done|]. split; [done|]. split; [done|].
    intros f. rewrite Hmc. done.
Qed.

Lemma fork_pte_valid_spec p :
  PTE.valid p = true ->
  PTE.valid (fork_pte p).1 = true /\ PTE.valid (fork_pte p).2 = true /\
  PTE.pfn (fork_pte p).1 = PTE.pfn p /\ PTE.pfn (fork_pte p).2 = PTE.pfn p /\
  PTE.rw (fork_pte p).1 = ACCESS_READ /\ PTE.rw (fork_pte p).2 = ACCESS_READ /\
  (PTE.private p = 0 ->
     PTE.private (fork_pte p).1 = PTE.rw p /\ PTE.private (fork_pte p).2 = PTE.rw p) /\
  (PTE.private p <> 0 ->
     PTE.private (fork_pte p).1 = PTE.private p /\
     PTE.private (fork_pte p).2 = PTE.private p).
Proof.
  destruct p as [v r pr pf]; cbn; intros ->. cbn.
  destruct (pr =? 0) eqn:E; cbn.
  - apply N.eqb_eq in E. subst. do 6 (split; [done|]). split; [done|]. done.
  - apply N.eqb_neq in E. do 6 (split; [done|]). split; [done|]. done.
Qed.

Lemma lookup_pte_entries (hl : list pte -> list pte) p q vpn :
  (forall d, (fun pd : nat * list pte => pd.2) <$> pd_of q d =
             (fun pd : nat * list pte => hl pd.2) <$> pd_of p d) ->
  lookup_pte q vpn = pd_of p (page_dir_idx vpn) ≫= fun pd => hl pd.2 !! page_entry_idx vpn.
Proof.
  intros H. unfold Src.lookup_pte, pte_at. specialize (H (page_dir_idx vpn)).
  destruct (pd_of q _), (pd_of p _); simpl in *; try discriminate; [|done].
  by injection H as ->.
Qed.

Lemma pd_addrs_keep (g : nat * list pte -> list pte) slots :
  pd_addrs (fmap (M:=list) (fmap (M:=option) (fun pd : nat * list pte => (pd.1, g pd))) slots)
  = pd_addrs slots.
Proof.
  induction slots as [|[[a l]|] slots IH]; [done| |]; unfold pd_addrs in *; cbn; by rewrite IH.
Qed.

Lemma length_lookup_fmap {A B} (g : nat -> A -> B) (l : list A) (l' : list B) :
  (forall i, l' !! i = g i <$> l !! i) -> length l' = length l.
Proof.
  intros H.
  assert (Hi : forall i, (i < length l')%nat <-> (i < length l)%nat).
  { intros i. rewrite <- !lookup_lt_is_Some, H. destruct (l !! i); simpl.
    - split; eauto.
    - split; intros [? ?]; discriminate. }
  destruct (lt_eq_lt_dec (length l) (length l')) as [[Hlt|Heq]|Hlt]; [|done|].
  - apply Hi in Hlt. lia.
  - apply Hi in Hlt. lia.
Qed.

(** C3. Switching to a pid absent from the ready queue forks the running
    process.  The child runs with that pid.  For every valid entry of the
    parent, both the parent's and the child's entries are valid, map the
    parent's frame and are read-only.  When the parent's [private] was
    zero, both [private] fields become the parent's old [rw]; otherwise both
    keep it.  Each frame's mapcount grows, in 32-bit unsigned arithmetic, by
    the number of the parent's valid entries mapping it (one per shared
    entry).  The child's page-table pages are fresh: their addresses lie
    above every address in use before, are pairwise distinct and differ
    from the parent's. *)
Theorem switch_process_forks_child (pid0 : N) (s : state) :
  find_pid pid0 (processes s) = None ->
  Forall (fun a => a < brk s)%nat (pd_addrs (pdes (current s))) ->
  (forall f m, mapcounts s !! f = Some m -> m < 2 ^ 32) ->
  let s' := switch_process pid0 s in
  let child := current s' in
  pid child = pid0 /\ paddr child = brk s /\
  (exists parent,
     processes s' = processes s ++ [parent] /\
     paddr parent = paddr (current s) /\ pid parent = pid (current s) /\
     (forall vpn p, lookup_pte (current s) vpn = Some p -> PTE.valid p = true ->
        exists pp pc,
          lookup_pte parent vpn = Some pp /\ lookup_pte child vpn = Some pc /\
          PTE.valid pp = true /\ PTE.valid pc = true /\
          PTE.pfn pp = PTE.pfn p /\ PTE.pfn pc = PTE.pfn p /\
          PTE.rw pp = ACCESS_READ /\ PTE.rw pc = ACCESS_READ /\
          (PTE.private p = 0 -> PTE.private pp = PTE.rw p /\ PTE.private pc = PTE.rw p) /\
          (PTE.private p <> 0 ->
             PTE.private pp = PTE.private p /\ PTE.private pc = PTE.private p)) /\
     (forall a, a ∈ pd_addrs (pdes child) ->
        (brk s < a)%nat /\ a ∉ pd_addrs (pdes parent)) /\
     NoDup (pd_addrs (pdes child))) /\
  length (mapcounts s') = length (mapcounts s) /\
  (forall f m, mapcounts s !! f = Some m ->
     mapcounts s' !! f = Some (u32 (m + N.of_nat (count_proc f (current s))))).
Proof.
  intros Hnone Haddr Hb. unfold switch_process. rewrite Hnone.
  pose proof (fork_pdes_spec (pdes (current s)) (S (brk s)) (mapcounts s) Hb) as Hf.
  destruct (fork_pdes (pdes (current s)) (S (brk s)) (mapcounts s))
    as [[[ps cs] b'] mc'].
  destruct Hf as (Hps & Hcs & Hseq & Hle & _ & Hmc).
  cbn [current processes mapcounts set_brk set_mapcounts set_current set_pdes
       set_processes set_tlb set_ptbr pdes pid paddr].
  split; [done|]. split; [done|]. split; [eexists; split; [reflexivity|]|split].
  - cbn [pdes pid paddr set_pdes]. split; [done|]. split; [done|]. split; [|split].
    + intros vpn p Hl Hv.
      destruct (fork_pte_valid_spec p Hv) as (H1 & H2 & H3 & H4 & H5 & H6 & H7 & H8).
      exists (fork_pte p).1, (fork_pte p).2.
      unfold Src.lookup_pte, pte_at in Hl.
      destruct (pd_of (current s) (page_dir_idx vpn)) as [pd|] eqn:Hpd; [|done].
      cbn in Hl. split; [|split; [|done]].
      * rewrite (lookup_pte_entries (fun l => (fork_pte <$> l).*1) (current s)).
        -- rewrite Hpd. cbn. by rewrite !list_lookup_fmap, Hl.
        -- intros d. unfold pd_of. cbn [pdes set_pdes]. rewrite Hps, list_lookup_fmap.
           by destruct (pdes (current s) !! d) as [[[a l]|]|].
      * rewrite (lookup_pte_entries (fun l => (fork_pte <$> l).*2) (current s)).
        -- rewrite Hpd. cbn. by rewrite !list_lookup_fmap, Hl.
        -- intros d. unfold pd_of. cbn [pdes set_pdes].
           pose proof (f_equal (fun l => l !! d) Hcs) as Hd. cbn beta in Hd.
           rewrite !list_lookup_fmap in Hd.
           destruct (cs !! d) as [[[a l]|]|], (pdes (current s) !! d) as [[[a' l']|]|];
             cbn in Hd |- *; try discriminate; try done.
           by injection Hd as ->.
    + intros a Ha. rewrite Hseq, elem_of_seq in Ha.
      rewrite Hps, (pd_addrs_keep (fun pd => (fork_pte <$> pd.2).*1)). split; [lia|].
      intros Hin. rewrite Forall_forall in Haddr. apply Haddr in Hin. lia.
    + rewrite Hseq. apply NoDup_seq.
  - apply (length_lookup_fmap (fun f m => u32 (m + N.of_nat (count_proc f (current s))))).
    exact Hmc.
  - intros f m Hm. by rewrite Hmc, Hm.
Qed.

(** *** Refcount invariant *)

Lemma sum_list_with_alter {A} (F : A -> nat) (G : A -> A) l i v :
  l !! i = Some v ->
  (sum_list_with F (alter G i l) + F v = sum_list_with F l + F (G v))%nat.
Proof.
  revert i. induction l as [|x l IH]; intros [|i] H; cbn in H; try done.
  - injection H as ->. simpl. lia.
  - specialize (IH i H).
    assert (E : sum_list_with F (alter G (S i) (x :: l)) =
                (F x + sum_list_with F (alter G i l))%nat) by reflexivity.
    rewrite E. simpl. lia.
Qed.

Lemma sum_list_with_insert {A} (F : A -> nat) l i v w :
  l !! i = Some v ->
  (sum_list_with F (<[i := w]> l) + F v = sum_list_with F l + F w)%nat.
Proof.
  revert i. induction l as [|x l IH]; intros [|i] H; cbn in H; try done.
  - injection H as ->. simpl. lia.
  - specialize (IH i H).
    assert (E : sum_list_with F (<[S i := w]> (x :: l)) =
                (F x + sum_list_with F (<[i := w]> l))%nat) by reflexivity.
    rewrite E. simpl. lia.
Qed.

Lemma sum_list_with_perm {A} (F : A -> nat) l1 l2 :
  l1 ≡ₚ l2 -> sum_list_with F l1 = sum_list_with F l2.
Proof. induction 1; simpl; lia. Qed.

Lemma count_ptes_all_invalid f c : all_invalid c -> count_ptes f c = 0%nat.
Proof.
  induction 1 as [|x c Hx _ IH]; [done|].
  rewrite count_ptes_cons, IH. unfold maps_to. by rewrite Hx.
Qed.

Lemma count_proc_update h d e p x g :
  pte_at p d e = Some x ->
  (count_proc g (update_pte h d e p) + (if maps_to g x then 1 else 0) =
   count_proc g p + (if maps_to g (h x) then 1 else 0))%nat.
Proof.
  unfold pte_at, pd_of, count_proc, update_pte, set_pdes. cbn [pdes].
  destruct (pdes p !! d) as [[[a l]|]|] eqn:Hd; cbn; try discriminate.
  intros Hx.
  pose proof (sum_list_with_alter (count_slot g)
    (fmap (fun pd : nat * list pte => (pd.1, alter h e pd.2))) (pdes p) d _ Hd) as H1.
  pose proof (sum_list_with_alter (fun q => if maps_to g q then 1%nat else 0%nat)
    h l e x Hx) as H2.
  cbn in H1. unfold count_ptes in H1. lia.
Qed.

Lemma nmappings_update h d e t s x g :
  current t = current s -> processes t = processes s ->
  pte_at (current s) d e = Some x ->
  (nmappings (set_current (update_pte h d e (current t)) t) g
     + (if maps_to g x then 1 else 0) =
   nmappings s g + (if maps_to g (h x) then 1 else 0))%nat.
Proof.
  intros Hc Hp H. pose proof (count_proc_update h d e (current s) x g H).
  unfold nmappings, live. cbn [current processes set_current sum_list_with].
  rewrite Hc, Hp. lia.
Qed.

Lemma nmappings_malloc d c s g :
  pd_of (current s) d = None -> all_invalid c ->
  nmappings (malloc_pd d c s) g = nmappings s g.
Proof.
  intros Hd Hc. unfold nmappings, live, malloc_pd. cbn.
  f_equal. unfold count_proc. cbn [pdes set_pdes].
  unfold pd_of in Hd.
  destruct (pdes (current s) !! d) as [[pd|]|] eqn:E; cbn in Hd; try discriminate.
  - pose proof (sum_list_with_insert (count_slot g) (pdes (current s)) d None
      (Some (brk s, c)) E) as H.
    assert (Hc0 : count_slot g (Some (brk s, c)) = 0%nat) by (by apply count_ptes_all_invalid).
    rewrite Hc0 in H. cbn in H. lia.
  - rewrite list_insert_ge; [done|]. by apply lookup_ge_None.
Qed.

Lemma wf_update h d e p : wf_proc p -> wf_proc (update_pte h d e p).
Proof.
  intros [Hl Hpd]. split.
  - by rewrite pdes_length_update.
  - intros d' pd. unfold update_pte, set_pdes. cbn [pdes].
    destruct (decide (d = d')) as [<-|Hne].
    + rewrite list_lookup_alter_eq.
      destruct (pdes p !! d) as [[pd0|]|] eqn:E; cbn; try discriminate.
      intros [= <-]. cbn. rewrite length_alter. eauto.
    + rewrite list_lookup_alter_ne by done. apply Hpd.
Qed.

Lemma malloc_pd_pdes d c s :
  pdes (current (malloc_pd d c s)) = <[d := Some (brk s, c)]> (pdes (current s)).
Proof. reflexivity. Qed.

Lemma wf_malloc d c s :
  wf_proc (current s) -> (d < NR_PDES_PER_PAGE)%nat -> length c = NR_PTES_PER_PAGE ->
  wf_proc (current (malloc_pd d c s)).
Proof.
  intros [Hl Hpd] Hd Hc. split; rewrite ?malloc_pd_pdes.
  - by rewrite length_insert.
  - intros d' pd. destruct (decide (d = d')) as [<-|Hne].
    + rewrite list_lookup_insert_eq by lia. intros [= <-]. done.
    + rewrite list_lookup_insert_ne by done. apply Hpd.
Qed.

Lemma rc_lookup s :
  refcount_conserved_u32 s <->
  forall f m, mapcounts s !! f = Some m -> m = u32 (N.of_nat (nmappings s f)).
Proof.
  split.
  - intros H f m Hm. pose proof (lookup_lt_Some _ _ _ Hm) as Hf.
    rewrite H in Hm by done. congruence.
  - intros H f Hf. destruct (lookup_lt_is_Some_2 _ _ Hf) as [m Hm].
    rewrite Hm. f_equal. eauto.
Qed.

Lemma u32_dec_u32 n : (1 <= n)%nat -> u32_dec (u32 (N.of_nat n)) = u32 (N.of_nat (n - 1)).
Proof.
  intros Hn. unfold u32_dec. rewrite u32_add_l. unfold u32.
  rewrite Nat2N.inj_sub.
  replace (N.of_nat n + (2 ^ 32 - 1)) with ((N.of_nat n - N.of_nat 1) + 1 * 2 ^ 32) by lia.
  apply N.Div0.mod_add.
Qed.

(** The count equation of [nmappings_update] for the update in the goal. *)
Local Ltac nm_update s Hx f Hn :=
  match goal with
  | |- context [nmappings (set_current (update_pte ?h ?d ?e (current ?t)) ?t) f] =>
      pose proof (nmappings_update h d e t s _ f eq_refl eq_refl Hx) as Hn
  end.

Lemma mc_set_lookup mc pfn v f :
  mc_set mc pfn v !! f =
  if decide (f = N.to_nat pfn) then (fun _ => v) <$> mc !! f else mc !! f.
Proof.
  unfold mc_set. case_decide as Hf.
  - subst. destruct (mc !! N.to_nat pfn) eqn:E; cbn.
    + apply list_lookup_insert_eq. eapply lookup_lt_Some; eauto.
    + rewrite list_insert_ge; [done|]. by apply lookup_ge_None.
  - by rewrite list_lookup_insert_ne.
Qed.

Lemma maps_to_valid f x :
  PTE.valid x = true -> maps_to f x = bool_decide (f = N.to_nat (PTE.pfn x)).
Proof.
  intros Hv. unfold maps_to. rewrite Hv. cbn.
  destruct (N.eqb_spec (PTE.pfn x) (N.of_nat f)); case_bool_decide; lia.
Qed.

Lemma maps_to_invalid f x : PTE.valid x = false -> maps_to f x = false.
Proof. unfold maps_to. by intros ->. Qed.

Lemma live_set_current c s :
  Forall wf_proc (live s) -> wf_proc c -> Forall wf_proc (live (set_current c s)).
Proof. intros H Hc. inversion H; subst. by constructor. Qed.

Lemma inv_free vpn s : vm_inv s -> in_range vpn -> vm_inv (free_page vpn s).
Proof.
  intros [Hrc Hwf] Hr. unfold Src.free_page.
  destruct (pte_at (current s) (page_dir_idx vpn) (page_entry_idx vpn)) as [x|] eqn:Hx;
    [|by split].
  destruct (PTE.valid x) eqn:Hv; [|by split].
  split.
  - rewrite rc_lookup in Hrc |- *. intros f m Hm.
    cbn [mapcounts set_current set_tlb set_mapcounts] in Hm.
    nm_update s Hx f Hn.
    rewrite (maps_to_valid f x Hv), maps_to_invalid in Hn by done.
    rewrite mc_set_lookup in Hm. case_decide as Hf.
    + rewrite bool_decide_true in Hn by done.
      destruct (mapcounts s !! f) as [m0|] eqn:Hm0; [|done].
      cbn in Hm. injection Hm as <-.
      assert (E : u32_dec (mc_get (mapcounts s) (PTE.pfn x)) =
                  u32 (N.of_nat (nmappings s f - 1))).
      { unfold mc_get. rewrite <- Hf, Hm0. change (default 0 (Some m0)) with m0.
        rewrite (Hrc f m0 Hm0). apply u32_dec_u32. lia. }
      etransitivity; [exact E|]. do 2 f_equal. lia.
    + rewrite bool_decide_false in Hn by done.
      rewrite (Hrc f m Hm). do 2 f_equal. lia.
  - apply live_set_current; [by destruct s|].
    apply wf_update. by inversion Hwf.
Qed.

Lemma nmappings_set_mapcounts mc s f : nmappings (set_mapcounts mc s) f = nmappings s f.
Proof. reflexivity. Qed.

(** Before [alloc_page] writes its entry, the directory is in place and
    the entry it overwrites is not a mapping. *)
Lemma alloc_prep vpn garbage s :
  wf_proc (current s) -> in_range vpn -> length garbage = NR_PTES_PER_PAGE ->
  all_invalid garbage ->
  (forall p, lookup_pte (current s) vpn = Some p -> PTE.valid p = false) ->
  let s2 := match pd_of (current s) (page_dir_idx vpn) with
            | Some _ => s
            | None => malloc_pd (page_dir_idx vpn) garbage s
            end in
  mapcounts s2 = mapcounts s /\ processes s2 = processes s /\
  (forall f, nmappings s2 f = nmappings s f) /\ wf_proc (current s2) /\
  exists x, pte_at (current s2) (page_dir_idx vpn) (page_entry_idx vpn) = Some x /\
            PTE.valid x = false.
Proof.
  intros Hw Hr Hg Hgi Hold. destruct (in_range_idx vpn Hr) as (HN & Hd & He).
  destruct (pd_of (current s) (page_dir_idx vpn)) as [pd|] eqn:Hpd.
  - split; [done|]. split; [done|]. split; [done|]. split; [done|].
    assert (Hl : length pd.2 = NR_PTES_PER_PAGE) by (eapply pd_of_Some_length; eauto).
    destruct (lookup_lt_is_Some_2 pd.2 (page_entry_idx vpn)) as [x Hx]; [lia|].
    assert (Hpx : pte_at (current s) (page_dir_idx vpn) (page_entry_idx vpn) = Some x)
      by (unfold pte_at; by rewrite Hpd).
    exists x. split; [done|]. by apply Hold.
  - split; [done|]. split; [done|].
    split; [intros f; by apply nmappings_malloc|].
    split; [by apply wf_malloc|].
    destruct (lookup_lt_is_Some_2 garbage (page_entry_idx vpn)) as [x Hx]; [lia|].
    exists x. split.
    + unfold pte_at. rewrite pd_of_malloc; [done|]. destruct Hw as [Hl _]. lia.
    + eapply Forall_lookup_1 in Hgi; eauto.
Qed.

Lemma u32_succ_of_zero n : u32 (N.of_nat n) = 0 -> u32 (N.of_nat (n + 1)) = 1.
Proof.
  intros H. rewrite Nat2N.inj_add, <- u32_add_l, H. reflexivity.
Qed.

Lemma inv_alloc vpn rw garbage s :
  vm_inv s -> in_range vpn -> length garbage = NR_PTES_PER_PAGE -> all_invalid garbage ->
  (forall p, lookup_pte (current s) vpn = Some p -> PTE.valid p = false) ->
  vm_inv (snd (alloc_page vpn rw garbage s)).
Proof.
  intros [Hrc Hwf] Hr Hg Hgi Hold. unfold Src.alloc_page.
  destruct (alloc_scan (mapcounts s)) as [g|] eqn:Hs; [|by split]. cbn [snd].
  destruct (alloc_scan_some _ _ Hs) as [Hg0 _].
  assert (Hw : wf_proc (current s)) by (by inversion Hwf).
  pose proof (alloc_prep vpn garbage (set_mapcounts (<[g := 1]> (mapcounts s)) s)
                Hw Hr Hg Hgi Hold) as (Hmc & Hp & Hnm & Hw2 & x & Hx & Hxv).
  split.
  - rewrite rc_lookup in Hrc |- *. intros f m Hm.
    cbn [mapcounts set_current] in Hm. rewrite Hmc in Hm. cbn [mapcounts set_mapcounts] in Hm.
    nm_update (match pd_of (current (set_mapcounts (<[g := 1]> (mapcounts s)) s))
                       (page_dir_idx vpn) with
               | Some _ => set_mapcounts (<[g := 1]> (mapcounts s)) s
               | None => malloc_pd (page_dir_idx vpn) garbage
                           (set_mapcounts (<[g := 1]> (mapcounts s)) s)
               end) Hx f Hn.
    rewrite Hnm, nmappings_set_mapcounts, maps_to_invalid in Hn by done.
    rewrite maps_to_valid in Hn by done. cbn [PTE.pfn] in Hn. rewrite Nat2N.id in Hn.
    destruct (decide (f = g)) as [->|Hne].
    + rewrite bool_decide_true in Hn by done.
      rewrite list_lookup_insert_eq in Hm by (eapply lookup_lt_Some; eauto).
      injection Hm as <-. symmetry. replace (nmappings _ g) with (nmappings s g + 1)%nat by lia.
      apply u32_succ_of_zero. symmetry. eauto.
    + rewrite bool_decide_false in Hn by done.
      rewrite list_lookup_insert_ne in Hm by done.
      rewrite (Hrc f m Hm). do 2 f_equal. lia.
  - apply live_set_current; [|by apply wf_update].
    unfold live. rewrite Hp. constructor; [done|]. by inversion Hwf.
Qed.

Lemma zero_pd_all_invalid : all_invalid zero_pd.
Proof. unfold Src.zero_pd, all_invalid. by apply Forall_replicate. Qed.

(** [handle_page_fault] first puts a zeroed directory in place. *)
Lemma fault_prep vpn s :
  vm_inv s -> in_range vpn ->
  let s1 := match pd_of (current s) (page_dir_idx vpn) with
            | Some _ => s
            | None => malloc_pd (page_dir_idx vpn) zero_pd s
            end in
  vm_inv s1 /\ mapcounts s1 = mapcounts s /\
  pte_at (current s1) (page_dir_idx vpn) (page_entry_idx vpn) =
    Some (default pte_zero (lookup_pte (current s) vpn)).
Proof.
  intros [Hrc Hwf] Hr. destruct (in_range_idx vpn Hr) as (HN & Hd & He).
  assert (Hw : wf_proc (current s)) by (by inversion Hwf).
  assert (Hl0 : lookup_pte (current s) vpn =
                pd_of (current s) (page_dir_idx vpn) ≫= fun pd => pd.2 !! page_entry_idx vpn)
    by reflexivity.
  rewrite Hl0.
  destruct (pd_of (current s) (page_dir_idx vpn)) as [pd|] eqn:Hpd.
  - split; [done|]. split; [done|].
    assert (Hl : length pd.2 = NR_PTES_PER_PAGE) by (eapply pd_of_Some_length; eauto).
    destruct (lookup_lt_is_Some_2 pd.2 (page_entry_idx vpn)) as [x Hx]; [lia|].
    unfold pte_at. rewrite Hpd. cbn. by rewrite Hx.
  - split; [split|split; [done|]].
    + rewrite rc_lookup in Hrc |- *. intros f m Hm.
      rewrite nmappings_malloc by (done || apply zero_pd_all_invalid). eauto.
    + apply live_set_current.
      * unfold live. constructor; [done|]. by inversion Hwf.
      * apply wf_malloc; [done|done|]. apply length_replicate.
    + unfold pte_at. rewrite pd_of_malloc by (destruct Hw as [Hl _]; lia).
      cbn. unfold Src.zero_pd. by rewrite lookup_replicate_2.
Qed.

Lemma update_pte_compose h1 h2 d e p :
  update_pte h2 d e (update_pte h1 d e p) = update_pte (fun q => h2 (h1 q)) d e p.
Proof.
  unfold update_pte, set_pdes. cbn [pdes paddr pid]. f_equal.
  rewrite list_alter_alter_eq. apply list_alter_ext; [|done].
  intros [[a l]|] _; cbn; [|done]. by rewrite list_alter_alter_eq.
Qed.

Lemma nmappings_replace s s' h d e x f :
  current s' = update_pte h d e (current s) -> processes s' = processes s ->
  pte_at (current s) d e = Some x ->
  (nmappings s' f + (if maps_to f x then 1 else 0) =
   nmappings s f + (if maps_to f (h x) then 1 else 0))%nat.
Proof.
  intros Hc Hp Hx. pose proof (count_proc_update h d e (current s) x f Hx).
  unfold nmappings, live. cbn [sum_list_with]. rewrite Hc, Hp. lia.
Qed.

Lemma nmappings_pos s d e x f :
  pte_at (current s) d e = Some x -> maps_to f x = true -> (1 <= nmappings s f)%nat.
Proof.
  intros Hx Hm.
  pose proof (nmappings_replace s
    (set_current (update_pte (pte_set_valid false) d e (current s)) s)
    (pte_set_valid false) d e x f eq_refl eq_refl Hx) as H.
  rewrite Hm, maps_to_invalid in H by (by destruct x). lia.
Qed.

(** The invariant survives a write of one entry of the running process
    whose counters follow the change of that entry. *)
Lemma inv_update_gen s s' h d e x :
  vm_inv s -> pte_at (current s) d e = Some x ->
  current s' = update_pte h d e (current s) -> processes s' = processes s ->
  (forall f m, mapcounts s' !! f = Some m ->
     m = u32 (N.of_nat (nmappings s f + (if maps_to f (h x) then 1 else 0)
                        - (if maps_to f x then 1 else 0)))) ->
  vm_inv s'.
Proof.
  intros [Hrc Hwf] Hx Hc Hp Hm. split.
  - apply rc_lookup. intros f m Hfm. rewrite (Hm f m Hfm). do 2 f_equal.
    pose proof (nmappings_replace s s' h d e x f Hc Hp Hx). lia.
  - unfold live. rewrite Hc, Hp. inversion Hwf; subst.
    constructor; [by apply wf_update|done].
Qed.

Lemma inv_fault vpn rw s :
  vm_inv s -> in_range vpn ->
  (cow_copies vpn rw s = true -> alloc_scan (mapcounts s) <> None) ->
  vm_inv (snd (handle_page_fault vpn rw s)).
Proof.
  intros Hinv Hr Hsc. unfold Src.handle_page_fault.
  pose proof (fault_prep vpn s Hinv Hr) as (Hinv1 & Hmc1 & Hx).
  unfold Src.cow_copies in Hsc. cbv zeta in Hsc.
  revert Hinv1 Hmc1 Hx.
  generalize (match pd_of (current s) (page_dir_idx vpn) with
              | Some _ => s
              | None => malloc_pd (page_dir_idx vpn) zero_pd s
              end) as s1.
  intros s1 Hinv1 Hmc1 Hx. rewrite <- Hmc1 in Hsc. clear Hinv Hmc1.
  revert Hsc Hx. generalize (default pte_zero (lookup_pte (current s) vpn)) as x.
  intros x Hsc Hx.
  rewrite Hx. change (default pte_zero (Some x)) with x.
  destruct (PTE.valid x) eqn:Hv; cbn [negb].
  2:{ pose proof (inv_alloc vpn rw zero_pd s1 Hinv1 Hr (length_replicate _ _)
                    zero_pd_all_invalid) as H.
      destruct (alloc_page vpn rw zero_pd s1); apply H.
      intros p Hp. unfold Src.lookup_pte in Hp. rewrite Hx in Hp. congruence. }
  destruct (negb (PTE.rw x =? rw) && negb (N.land rw ACCESS_WRITE =? 0)) eqn:Hc1;
    [|done].
  destruct (negb (N.land (PTE.rw x) ACCESS_READ =? 0)
            && negb (N.land (PTE.private x) ACCESS_WRITE =? 0)) eqn:Hc2; [|done].
  destruct (1 <? mc_get (mapcounts s1) (PTE.pfn x)) eqn:Hgt.
  2:{ cbn [snd]. eapply inv_update_gen; [exact Hinv1|exact Hx|done|done|].
      intros f m Hm. destruct Hinv1 as [Hrc _]. rewrite rc_lookup in Hrc.
      rewrite (Hrc f m Hm). do 2 f_equal.
      replace (maps_to f (pte_set_rw (N.lor (PTE.rw x) ACCESS_WRITE) x)) with (maps_to f x)
        by (by destruct x). lia. }
  (* copy on write: a fresh frame replaces the shared one *)
  assert (Hpd : exists pd, pd_of (current s1) (page_dir_idx vpn) = Some pd).
  { unfold pte_at in Hx. destruct (pd_of _ _); [eauto|done]. }
  destruct Hpd as [pd Hpd].
  destruct (alloc_page vpn 3 zero_pd s1) as [np s2] eqn:Ea.
  unfold Src.alloc_page in Ea.
  destruct (alloc_scan (mapcounts s1)) as [g|] eqn:Hs.
  2:{ exfalso. apply Hsc; [|reflexivity].
      apply andb_true_iff in Hc1 as [Ha Hb]. apply andb_true_iff in Hc2 as [Hc Hd].
      by rewrite ?Hv, ?Ha, ?Hb, ?Hc, ?Hd, ?Hgt. }
  cbn [current set_mapcounts] in Ea. rewrite Hpd in Ea. injection Ea as <- <-.
  cbn [snd].
  destruct (alloc_scan_some _ _ Hs) as [Hg0 _].
  destruct Hinv1 as [Hrc Hwf]. rewrite rc_lookup in Hrc.
  unfold mc_get in Hgt.
  destruct (mapcounts s1 !! N.to_nat (PTE.pfn x)) as [mo|] eqn:Hmo; [|done].
  change (default 0 (Some mo)) with mo in Hgt. apply N.ltb_lt in Hgt.
  assert (Hne : g <> N.to_nat (PTE.pfn x)) by (intros ->; assert (mo = 0) by congruence; lia).
  eapply inv_update_gen; [split; [by apply rc_lookup|exact Hwf]|exact Hx| |done|].
  - cbn [current set_current set_mapcounts]. by rewrite !update_pte_compose.
  - intros f m Hm. cbn [mapcounts set_current set_mapcounts] in Hm.
    rewrite (maps_to_valid f x Hv), maps_to_valid by (by destruct x).
    replace (PTE.pfn _) with (N.of_nat g) by (by destruct x). rewrite Nat2N.id.
    unfold mc_get in Hm. rewrite list_lookup_insert_ne in Hm by done.
    rewrite Hmo in Hm. change (default 0 (Some mo)) with mo in Hm.
    rewrite mc_set_lookup in Hm. case_decide as Hf.
    + subst f. rewrite list_lookup_insert_ne, Hmo in Hm by done. cbn in Hm.
      injection Hm as <-.
      rewrite bool_decide_false, bool_decide_true by done.
      pose proof (nmappings_pos s1 _ _ x _ Hx (eq_trans (maps_to_valid _ x Hv)
                    (bool_decide_true _ eq_refl))) as Hpos.
      rewrite (Hrc _ mo Hmo), u32_dec_u32 by done. do 2 f_equal. lia.
    + rewrite (bool_decide_false (f = N.to_nat _)) by done.
      destruct (decide (f = g)) as [->|Hfg].
      * rewrite list_lookup_insert_eq in Hm by (eapply lookup_lt_Some; eauto).
        injection Hm as <-. rewrite bool_decide_true by done.
        symmetry. replace (_ + 1 - 0)%nat with (nmappings s1 g + 1)%nat by lia.
        apply u32_succ_of_zero. symmetry. eauto.
      * rewrite list_lookup_insert_ne in Hm by done.
        rewrite bool_decide_false by done. rewrite (Hrc f m Hm). do 2 f_equal. lia.
Qed.

Lemma find_pid_lookup pid0 q i p : find_pid pid0 q = Some (i, p) -> q !! i = Some p.
Proof.
  revert i. induction q as [|p' q IH]; intros i; cbn; [done|].
  destruct (pid p' =? pid0).
  - by intros [= <- <-].
  - destruct (find_pid pid0 q) as [[j p'']|] eqn:E; cbn; [|done].
    intros [= <- <-]. cbn. by apply IH.
Qed.

Lemma Forall_perm {A} (P : A -> Prop) l1 l2 : l1 ≡ₚ l2 -> Forall P l1 -> Forall P l2.
Proof.
  induction 1 as [|x l1 l2 _ IH|x y l|l1 l2 l3 _ IH1 _ IH2]; intros H; auto.
  - inversion H; subst. constructor; auto.
  - inversion H as [|? ? Hy H']; subst. inversion H'; subst. by repeat constructor.
Qed.

Lemma count_slots_parent f slots :
  sum_list_with (count_slot f)
    (fmap (M:=list) (fmap (M:=option)
       (fun pd : nat * list pte => (pd.1, (fmap (M:=list) fork_pte pd.2).*1))) slots)
  = sum_list_with (count_slot f) slots.
Proof.
  induction slots as [|[[a l]|] slots IH]; [done| |]; cbn [fmap list_fmap sum_list_with];
    rewrite IH; [|done].
  cbn. f_equal. apply count_ptes_fork.
Qed.

Lemma count_slots_child f cs slots :
  fmap (M:=list) (fmap (M:=option) snd) cs =
    fmap (M:=list) (fmap (M:=option)
      (fun pd : nat * list pte => (fmap (M:=list) fork_pte pd.2).*2)) slots ->
  sum_list_with (count_slot f) cs = sum_list_with (count_slot f) slots.
Proof.
  revert cs. induction slots as [|slot slots IH]; intros [|c cs] H; try discriminate; [done|].
  cbn in H. injection H as Hc Hcs. cbn [sum_list_with]. rewrite (IH cs Hcs). f_equal.
  destruct c as [[a l]|], slot as [[a' l']|]; try discriminate; [|done].
  cbn in Hc |- *. injection Hc as ->. apply count_ptes_fork.
Qed.

Lemma wf_fork_parent p :
  wf_proc p ->
  wf_proc (set_pdes (fmap (M:=list) (fmap (M:=option)
             (fun pd : nat * list pte => (pd.1, (fmap (M:=list) fork_pte pd.2).*1))) (pdes p)) p).
Proof.
  intros [Hl Hpd]. split; cbn [pdes set_pdes].
  - by rewrite length_fmap.
  - intros d pd. rewrite list_lookup_fmap.
    destruct (pdes p !! d) as [[pd0|]|] eqn:E; cbn; try discriminate.
    intros [= <-]. cbn. rewrite !length_fmap. eauto.
Qed.

Lemma wf_fork_child p a pid0 cs :
  wf_proc p ->
  fmap (M:=list) (fmap (M:=option) snd) cs =
    fmap (M:=list) (fmap (M:=option)
      (fun pd : nat * list pte => (fmap (M:=list) fork_pte pd.2).*2)) (pdes p) ->
  wf_proc (mk_process a pid0 cs).
Proof.
  intros [Hl Hpd] Hcs. split; cbn [pdes].
  - apply (f_equal length) in Hcs. rewrite !length_fmap in Hcs. lia.
  - intros d pd Hd. pose proof (f_equal (fun l => l !! d) Hcs) as H. cbn beta in H.
    rewrite !list_lookup_fmap, Hd in H.
    destruct (pdes p !! d) as [[pd0|]|] eqn:E; cbn in H; try discriminate.
    injection H as ->. rewrite !length_fmap. eauto.
Qed.

Lemma inv_switch pid0 s : vm_inv s -> vm_inv (switch_process pid0 s).
Proof.
  intros [Hrc Hwf]. rewrite rc_lookup in Hrc. unfold switch_process.
  destruct (find_pid pid0 (processes s)) as [[i p]|] eqn:Hf.
  - apply find_pid_lookup in Hf.
    assert (Hperm : p :: delete i (processes s) ++ [current s] ≡ₚ live s).
    { unfold live. rewrite Permutation_app_comm. cbn. rewrite perm_swap.
      constructor. symmetry. by apply delete_Permutation. }
    split.
    + apply rc_lookup. intros f m Hm. rewrite (Hrc f m Hm).
      do 2 f_equal. unfold nmappings.
      etransitivity; [apply (sum_list_with_perm _ _ _ (symmetry Hperm))|]. reflexivity.
    + apply (Forall_perm _ _ _ (symmetry Hperm)), Hwf.
  - assert (Hb : forall f m, mapcounts s !! f = Some m -> m < 2 ^ 32).
    { intros f m Hm. rewrite (Hrc f m Hm). apply u32_lt. }
    pose proof (fork_pdes_spec (pdes (current s)) (S (brk s)) (mapcounts s) Hb) as Hfk.
    destruct (fork_pdes (pdes (current s)) (S (brk s)) (mapcounts s))
      as [[[ps cs] b'] mc'].
    destruct Hfk as (Hps & Hcs & _ & _ & _ & Hmc).
    unfold live in Hwf. apply Forall_cons in Hwf as [Hw Hq].
    split.
    + apply rc_lookup. intros f m Hm. cbn in Hm. rewrite Hmc in Hm.
      destruct (mapcounts s !! f) as [m0|] eqn:Hm0; [|done]. cbn in Hm.
      injection Hm as <-. rewrite (Hrc f m0 Hm0), u32_add_l. f_equal.
      assert (E1 : count_proc f (mk_process (brk s) pid0 cs) = count_proc f (current s))
        by (unfold count_proc; cbn [pdes]; apply (count_slots_child f cs _ Hcs)).
      assert (E2 : count_proc f (set_pdes ps (current s)) = count_proc f (current s))
        by (unfold count_proc; cbn [pdes set_pdes]; rewrite Hps; apply count_slots_parent).
      unfold nmappings, live. cbn [current processes set_ptbr set_current
        set_processes set_tlb set_brk set_mapcounts].
      cbn [sum_list_with]. rewrite sum_list_with_app. cbn [sum_list_with]. rewrite E1, E2. fold (count_proc f (current s)). lia.
    + unfold live. cbn [current processes set_ptbr set_current set_processes set_tlb
        set_brk set_mapcounts].
      constructor; [by eapply wf_fork_child|].
      apply Forall_app. split; [done|]. constructor; [|done].
      rewrite Hps. by apply wf_fork_parent.
Qed.

Lemma inv_init pid0 nframes ntlb : vm_inv (init_state pid0 nframes ntlb).
Proof.
  split.
  - apply rc_lookup. intros f m Hm. cbn in Hm.
    apply lookup_replicate in Hm as [-> _].
    assert (Hz : nmappings (Src.init_state NR_PDES_PER_PAGE pid0 nframes ntlb) f = 0%nat).
    { unfold nmappings, live, count_proc. cbn. generalize NR_PDES_PER_PAGE as n.
      induction n as [|n IH]; [done|]. cbn. exact IH. }
    by rewrite Hz.
  - unfold live. cbn. constructor; [|constructor]. split; cbn.
    + apply length_replicate.
    + intros d pd Hd. apply lookup_replicate in Hd as [Hd _]. discriminate.
Qed.

Lemma inv_step s s' : vm_step_fresh s s' -> vm_inv s -> vm_inv s'.
Proof.
  destruct 1 as [vpn rw garbage s Hr Hg Hgi Hold|vpn s Hr|vpn rw s Hr Hsc|pid0 s];
    intros Hinv.
  - by apply inv_alloc.
  - by apply inv_free.
  - by apply inv_fault.
  - by apply inv_switch.
Qed.

(** C1 (amended).  In every state reachable from the start-up state by
    [alloc_page] on a vpn whose PTE is not valid (with the page its
    [malloc] returns reading as zeroed), [free_page], [handle_page_fault]
    (any fault except a copy-on-write copy attempted while no frame is
    free), and [switch_process], all on in-range
    vpns, the mapcount of every frame equals the number of valid PTEs of
    the live processes (running process and ready queue) that map it,
    counted modulo 2^32 as the [unsigned int] counter holds it. *)
Theorem refcount_conserved_reachable (pid0 : N) (nframes ntlb : nat) (s : state) :
  rtc vm_step_fresh (init_state pid0 nframes ntlb) s -> refcount_conserved_u32 s.
Proof.
  intros H. cut (vm_inv s); [by intros []|].
  assert (Hgen : forall x y, rtc vm_step_fresh x y -> vm_inv x -> vm_inv y).
  { induction 1 as [x|x y z Hxy _ IH]; [done|]. intros Hx. apply IH. by eapply inv_step. }
  eapply Hgen; [exact H|apply inv_init].
Qed.

End Proofs.

(** ** Further properties of pa3.c *)

(** *** The TLB functions *)

Lemma tlb_match_iff e vpn rw :
  ((TLBE.vpn e =? vpn)%nat && negb (N.land (TLBE.rw e) rw =? 0)) = true <->
  TLBE.vpn e = vpn /\ N.land (TLBE.rw e) rw <> 0.
Proof. rewrite andb_true_iff, Nat.eqb_eq, negb_true_iff, N.eqb_neq. reflexivity. Qed.

Lemma lookup_tlb_some_iff vpn rw t f :
  lookup_tlb vpn rw t = Some f <->
  exists i e, t !! i = Some e /\ TLBE.vpn e = vpn /\ N.land (TLBE.rw e) rw <> 0 /\
    TLBE.pfn e = f /\
    forall j e', (j < i)%nat -> t !! j = Some e' ->
      ~ (TLBE.vpn e' = vpn /\ N.land (TLBE.rw e') rw <> 0).
Proof.
  induction t as [|e t IH]; cbn [lookup_tlb].
  - split; [discriminate|]. intros (i & e & H & _). rewrite lookup_nil in H. discriminate.
  - destruct ((TLBE.vpn e =? vpn)%nat && negb (N.land (TLBE.rw e) rw =? 0)) eqn:Hm.
    + apply tlb_match_iff in Hm. split.
      * intros [= <-]. exists 0%nat, e. split; [done|].
        split; [apply Hm|]. split; [apply Hm|]. split; [done|]. intros j e' Hj. lia.
      * intros (i & e' & Hi & Hv & Hr & Hf & Hb). destruct i as [|i].
        -- cbn in Hi. injection Hi as ->. by rewrite Hf.
        -- exfalso. apply (Hb 0%nat e); [lia|reflexivity|exact Hm].
    + rewrite IH. split.
      * intros (i & e' & Hi & Hv & Hr & Hf & Hb). exists (S i), e'.
        split; [done|]. split; [done|]. split; [done|]. split; [done|].
        intros [|j] e'' Hj Hl.
        -- cbn in Hl. injection Hl as <-. intros Hc. apply tlb_match_iff in Hc. congruence.
        -- apply (Hb j); [lia|exact Hl].
      * intros (i & e' & Hi & Hv & Hr & Hf & Hb). destruct i as [|i].
        -- cbn in Hi. injection Hi as <-. exfalso.
           assert (Hc : ((TLBE.vpn e =? vpn)%nat && negb (N.land (TLBE.rw e) rw =? 0)) = true)
             by (apply tlb_match_iff; auto).
           congruence.
        -- exists i, e'. split; [done|]. split; [done|]. split; [done|]. split; [done|].
           intros j e'' Hj Hl. apply (Hb (S j)); [lia|exact Hl].
Qed.




Lemma tlb_clean_iff t :
  tlb_clean t = true <-> Forall (fun e => TLBE.valid e = false -> TLBE.rw e = 0) t.
Proof.
  induction t as [|e t IH]; cbn; [split; constructor|].
  rewrite andb_true_iff, Forall_cons, IH, orb_true_iff, N.eqb_eq.
  destruct (TLBE.valid e); intuition congruence.
Qed.

Lemma tlb_clean_lookup t i e :
  tlb_clean t = true -> t !! i = Some e -> TLBE.valid e = false -> TLBE.rw e = 0.
Proof. rewrite tlb_clean_iff. intros H Hi. exact (Forall_lookup_1 _ _ _ _ H Hi). Qed.

Lemma insert_tlb_cons vpn rw pfn e t :
  insert_tlb vpn rw pfn (e :: t) =
  if negb (TLBE.valid e) then TLBE.mk_tlb_entry true vpn rw pfn (TLBE.private e) :: t
  else if (TLBE.vpn e =? vpn)%nat
  then TLBE.mk_tlb_entry true (TLBE.vpn e) rw pfn (TLBE.private e) :: t
  else e :: insert_tlb vpn rw pfn t.
Proof.
  unfold insert_tlb. cbn [insert_scan].
  destruct (negb (TLBE.valid e)); [reflexivity|].
  destruct (TLBE.vpn e =? vpn)%nat; [reflexivity|].
  destruct (insert_scan vpn t); reflexivity.
Qed.

Lemma tlb_clean_cons e t :
  tlb_clean (e :: t) = (TLBE.valid e || (TLBE.rw e =? 0)) && tlb_clean t.
Proof. reflexivity. Qed.

Lemma tlb_clean_insert vpn rw pfn t :
  tlb_clean t = true -> tlb_clean (insert_tlb vpn rw pfn t) = true.
Proof.
  induction t as [|e t IH]; [done|]. rewrite insert_tlb_cons, tlb_clean_cons, andb_true_iff.
  intros [He Ht].
  destruct (TLBE.valid e) eqn:Hv; cbn [negb]; [destruct (TLBE.vpn e =? vpn)%nat|];
    rewrite tlb_clean_cons; rewrite ?Hv; cbn [TLBE.valid orb andb]; auto.
Qed.

Lemma tlb_invalidate_pfn_lookup pfn t i :
  tlb_invalidate_pfn pfn t !! i =
  (fun e => if TLBE.valid e && (TLBE.pfn e =? pfn)
            then TLBE.mk_tlb_entry false (TLBE.vpn e) 0 0 (TLBE.private e) else e) <$> t !! i.
Proof.
  revert i. induction t as [|e t IH]; intros [|i]; cbn; auto.
Qed.

Lemma tlb_clean_invalidate pfn t :
  tlb_clean t = true -> tlb_clean (tlb_invalidate_pfn pfn t) = true.
Proof.
  induction t as [|e t IH]; [done|]. cbn [tlb_invalidate_pfn map].
  rewrite !tlb_clean_cons, !andb_true_iff. intros [He Ht].
  split; [|auto]. destruct (TLBE.valid e && (TLBE.pfn e =? pfn)); cbn; auto.
Qed.

Lemma tlb_clean_flush t : tlb_clean t = true -> tlb_clean (flush_tlb t) = true.
Proof.
  induction t as [|e t IH]; [done|]. cbn [flush_tlb].
  destruct (TLBE.valid e); cbn [negb]; [|done].
  rewrite !tlb_clean_cons, !andb_true_iff. intros [_ Ht]. auto.
Qed.

Lemma forallb_invalid_packed t :
  forallb (fun e => negb (TLBE.valid e)) t = true -> tlb_packed t = true.
Proof.
  induction t as [|e t IH]; [done|]. cbn. rewrite andb_true_iff. intros [He Ht].
  destruct (TLBE.valid e); [discriminate|done].
Qed.

Lemma forallb_invalid t :
  forallb (fun e => negb (TLBE.valid e)) t = true -> Forall (fun e => TLBE.valid e = false) t.
Proof.
  induction t as [|e t IH]; cbn; [constructor|]. rewrite andb_true_iff, negb_true_iff.
  intros [He Ht]. constructor; auto.
Qed.

Lemma flush_packed t :
  tlb_packed t = true ->
  length (flush_tlb t) = length t /\ Forall (fun e => TLBE.valid e = false) (flush_tlb t).
Proof.
  induction t as [|e t IH]; [by split|]. cbn [tlb_packed flush_tlb].
  destruct (TLBE.valid e) eqn:Hv; cbn [negb].
  - intros H. destruct (IH H) as [Hl Hf]. cbn. split; [lia|]. by constructor.
  - intros H. split; [done|]. constructor; [done|].
    by apply forallb_invalid.
Qed.

Lemma length_insert_tlb vpn rw pfn t : length (insert_tlb vpn rw pfn t) = length t.
Proof.
  induction t as [|e t IH]; [done|]. rewrite insert_tlb_cons.
  destruct (negb (TLBE.valid e)); [done|]. destruct (TLBE.vpn e =? vpn)%nat; cbn; auto.
Qed.

(** X2: on a TLB whose invalid entries have [rw = 0], a [lookup_tlb] hit
    always comes from a valid entry for the vpn. *)
Theorem lookup_tlb_clean_valid vpn rw t f :
  tlb_clean t = true -> lookup_tlb vpn rw t = Some f ->
  exists e, e ∈ t /\ TLBE.valid e = true /\ TLBE.vpn e = vpn /\ TLBE.pfn e = f /\
            N.land (TLBE.rw e) rw <> 0.
Proof.
  intros Hc Hl. apply lookup_tlb_some_iff in Hl as (i & e & Hi & Hv & Hr & Hf & _).
  exists e. split; [by eapply list_elem_of_lookup_2|].
  destruct (TLBE.valid e) eqn:Hval; [by auto|].
  exfalso. apply Hr. rewrite (tlb_clean_lookup t i e Hc Hi Hval). apply N.land_0_l.
Qed.

(** X4: once [insert_tlb] has found a slot (an invalid entry or a valid entry
    for the vpn comes first), a lookup of the vpn with an access sharing a
    bit with the inserted [rw] returns the inserted frame. *)
Theorem insert_tlb_lookup vpn rw pfn acc t :
  (exists e, e ∈ t /\ (TLBE.valid e = false \/ TLBE.vpn e = vpn)) ->
  N.land rw acc <> 0 ->
  lookup_tlb vpn acc (insert_tlb vpn rw pfn t) = Some pfn.
Proof.
  intros Hex Hacc. apply N.eqb_neq in Hacc.
  induction t as [|e t IH].
  - destruct Hex as (e & He & _). by apply elem_of_nil in He.
  - rewrite insert_tlb_cons. destruct (TLBE.valid e) eqn:Hv; cbn [negb].
    + destruct (TLBE.vpn e =? vpn)%nat eqn:Hvpn.
      * cbn. rewrite Hvpn, Hacc. reflexivity.
      * cbn [lookup_tlb]. rewrite Hvpn. cbn [andb]. apply IH.
        destruct Hex as (e' & He' & Hc). apply elem_of_cons in He' as [->|He'].
        -- exfalso. destruct Hc as [Hc|Hc]; [congruence|].
           apply Nat.eqb_neq in Hvpn. contradiction.
        -- by exists e'.
    + cbn. rewrite Nat.eqb_refl, Hacc. reflexivity.
Qed.

(** X5: two [insert_tlb] calls for the same vpn leave the TLB as the second
    call alone would: the last insertion wins. *)
Theorem insert_tlb_last_wins vpn rw1 pfn1 rw2 pfn2 t :
  insert_tlb vpn rw2 pfn2 (insert_tlb vpn rw1 pfn1 t) = insert_tlb vpn rw2 pfn2 t.
Proof.
  induction t as [|e t IH]; [reflexivity|].
  rewrite !insert_tlb_cons. destruct (TLBE.valid e) eqn:Hv; cbn [negb].
  - destruct (TLBE.vpn e =? vpn)%nat eqn:He.
    + rewrite insert_tlb_cons. cbn [negb TLBE.valid TLBE.vpn TLBE.private]. by rewrite He.
    + rewrite insert_tlb_cons, Hv, He. cbn [negb]. by rewrite IH.
  - rewrite insert_tlb_cons. cbn [negb TLBE.valid TLBE.vpn TLBE.private].
    by rewrite Nat.eqb_refl.
Qed.

(** X6: [insert_tlb] keeps the TLB's length, never invalidates an entry, and
    leaves every valid entry for another vpn as it was. *)
Theorem insert_tlb_keeps vpn rw pfn t :
  length (insert_tlb vpn rw pfn t) = length t /\
  forall i e, t !! i = Some e -> TLBE.valid e = true ->
    exists e', insert_tlb vpn rw pfn t !! i = Some e' /\ TLBE.valid e' = true /\
               (TLBE.vpn e <> vpn -> e' = e).
Proof.
  split; [apply length_insert_tlb|].
  induction t as [|e t IH]; intros i x Hi Hx; [by rewrite lookup_nil in Hi|].
  rewrite insert_tlb_cons. destruct (TLBE.valid e) eqn:Hv; cbn [negb].
  - destruct (TLBE.vpn e =? vpn)%nat eqn:He.
    + destruct i as [|i]; cbn in Hi |- *.
      * injection Hi as <-. eexists. split; [reflexivity|]. split; [done|].
        intros Hne. apply Nat.eqb_eq in He. contradiction.
      * exists x. auto.
    + destruct i as [|i]; cbn in Hi |- *.
      * injection Hi as <-. exists e. auto.
      * by apply IH.
  - destruct i as [|i]; cbn in Hi |- *.
    + injection Hi as <-. congruence.
    + exists x. auto.
Qed.

Lemma insert_tlb_packed_aux vpn rw pfn t :
  tlb_packed t = true -> tlb_packed (insert_tlb vpn rw pfn t) = true.
Proof.
  induction t as [|e t IH]; [done|]. rewrite insert_tlb_cons. cbn [tlb_packed].
  destruct (TLBE.valid e) eqn:Hv; cbn [negb]; intros H.
  - destruct (TLBE.vpn e =? vpn)%nat; cbn [tlb_packed TLBE.valid]; rewrite ?Hv; auto.
  - cbn [tlb_packed TLBE.valid]. by apply forallb_invalid_packed.
Qed.

(** X7: [insert_tlb] keeps the valid entries a prefix of the TLB. *)
Theorem insert_tlb_packed vpn rw pfn t :
  tlb_packed t = true -> tlb_packed (insert_tlb vpn rw pfn t) = true.
Proof. apply insert_tlb_packed_aux. Qed.

Section Extras.

Variable NR_PTES_PER_PAGE NR_PDES_PER_PAGE : nat.

Local Abbreviation page_dir_idx := (page_dir_idx NR_PTES_PER_PAGE).
Local Abbreviation page_entry_idx := (page_entry_idx NR_PTES_PER_PAGE).
Local Abbreviation lookup_pte := (lookup_pte NR_PTES_PER_PAGE).
Local Abbreviation zero_pd := (zero_pd NR_PTES_PER_PAGE).
Local Abbreviation alloc_page := (alloc_page NR_PTES_PER_PAGE).
Local Abbreviation free_page := (free_page NR_PTES_PER_PAGE).
Local Abbreviation handle_page_fault := (handle_page_fault NR_PTES_PER_PAGE).
Local Abbreviation in_range := (in_range NR_PTES_PER_PAGE NR_PDES_PER_PAGE).
Local Abbreviation wf_proc := (wf_proc NR_PTES_PER_PAGE NR_PDES_PER_PAGE).
Local Abbreviation init_state := (init_state NR_PDES_PER_PAGE).

Lemma alloc_page_frame vpn rw garbage s :
  let s' := snd (alloc_page vpn rw garbage s) in
  processes s' = processes s /\ tlb s' = tlb s /\ ptbr s' = ptbr s /\
  pid (current s') = pid (current s) /\ paddr (current s') = paddr (current s).
Proof.
  unfold Src.alloc_page. destruct (alloc_scan (mapcounts s)); [|done].
  destruct (pd_of _ _); cbn; repeat split.
Qed.

Lemma hpf_frame vpn rw s :
  let s' := snd (handle_page_fault vpn rw s) in
  processes s' = processes s /\ tlb s' = tlb s /\ ptbr s' = ptbr s.
Proof.
  unfold Src.handle_page_fault.
  assert (H1 : let s1 := match pd_of (current s) (page_dir_idx vpn) with
                         | Some _ => s
                         | None => malloc_pd (page_dir_idx vpn) zero_pd s
                         end in
               processes s1 = processes s /\ tlb s1 = tlb s /\ ptbr s1 = ptbr s)
    by (destruct (pd_of _ _); repeat split).
  revert H1.
  generalize (match pd_of (current s) (page_dir_idx vpn) with
              | Some _ => s
              | None => malloc_pd (page_dir_idx vpn) zero_pd s
              end) as s1.
  intros s1 (Hq & Ht & Hp). cbv zeta.
  repeat match goal with
  | |- context [alloc_page ?v ?r ?g ?x] =>
      let E := fresh "E" in let F := fresh "F" in
      pose proof (alloc_page_frame v r g x) as F; cbv zeta in F;
      destruct (alloc_page v r g x) as [? ?] eqn:E; cbn [snd] in F
  | |- context [if ?b then _ else _] => destruct b
  end; cbn [fst snd processes tlb ptbr set_current set_mapcounts]; intuition congruence.
Qed.

Lemma switch_tlb pid0 s : tlb (switch_process pid0 s) = flush_tlb (tlb s).
Proof.
  unfold switch_process. destruct (find_pid pid0 (processes s)) as [[i p]|]; [reflexivity|].
  destruct (fork_pdes _ _ _) as [[[? ?] ?] ?]. reflexivity.
Qed.

Lemma pd_of_malloc_ne d d' c s :
  d <> d' -> pd_of (current (malloc_pd d c s)) d' = pd_of (current s) d'.
Proof. intros H. unfold pd_of. rewrite malloc_pd_pdes. by rewrite list_lookup_insert_ne. Qed.

(** The page-table directory [handle_page_fault] works on (lines 218-227). *)
Lemma fault_dir_spec vpn s :
  wf_proc (current s) -> in_range vpn ->
  let s1 := match pd_of (current s) (page_dir_idx vpn) with
            | Some _ => s
            | None => malloc_pd (page_dir_idx vpn) zero_pd s
            end in
  mapcounts s1 = mapcounts s /\ processes s1 = processes s /\ tlb s1 = tlb s /\
  pte_at (current s1) (page_dir_idx vpn) (page_entry_idx vpn) =
    Some (default pte_zero (lookup_pte (current s) vpn)) /\
  (forall vpn' q, lookup_pte (current s) vpn' = Some q -> lookup_pte (current s1) vpn' = Some q).
Proof.
  intros Hwf Hr. destruct (in_range_idx _ _ vpn Hr) as (HN & Hd & He).
  destruct (pd_of (current s) (page_dir_idx vpn)) as [pd|] eqn:Hpd; cbv zeta.
  - split; [done|]. split; [done|]. split; [done|]. split; [|done].
    unfold Src.lookup_pte, pte_at. rewrite Hpd. simpl.
    destruct (lookup_lt_is_Some_2 pd.2 (page_entry_idx vpn)) as [x Hx].
    { erewrite pd_of_Some_length by eauto. done. }
    by rewrite Hx.
  - assert (Hlen : (page_dir_idx vpn < length (pdes (current s)))%nat)
      by (destruct Hwf as [-> _]; done).
    split; [done|]. split; [done|]. split; [done|]. split.
    + unfold Src.lookup_pte, pte_at. rewrite pd_of_malloc by done. rewrite Hpd. simpl.
      unfold Src.zero_pd. by rewrite lookup_replicate_2.
    + intros vpn' q Hq. unfold Src.lookup_pte, pte_at in Hq |- *.
      destruct (decide (page_dir_idx vpn = page_dir_idx vpn')) as [E|E].
      * rewrite <- E, Hpd in Hq. discriminate.
      * by rewrite pd_of_malloc_ne.
Qed.

Lemma alloc_page_present vpn rw garbage s g x :
  pte_at (current s) (page_dir_idx vpn) (page_entry_idx vpn) = Some x ->
  alloc_scan (mapcounts s) = Some g ->
  alloc_page vpn rw garbage s =
    (N.of_nat g,
     set_current (update_pte (fun p => PTE.mk_pte true rw (PTE.private p) (N.of_nat g))
                   (page_dir_idx vpn) (page_entry_idx vpn) (current s))
                 (set_mapcounts (<[g := 1]> (mapcounts s)) s)).
Proof.
  intros Hx Hg. unfold Src.alloc_page. rewrite Hg. cbn [current set_mapcounts].
  unfold pte_at in Hx. destruct (pd_of (current s) (page_dir_idx vpn)); [reflexivity|].
  discriminate.
Qed.

Lemma alloc_page_full vpn rw garbage s :
  alloc_scan (mapcounts s) = None -> alloc_page vpn rw garbage s = (UINT_NEG1, s).
Proof. intros Hg. unfold Src.alloc_page. by rewrite Hg. Qed.

Lemma lookup_pte_update_eq h vpn p :
  lookup_pte (update_pte h (page_dir_idx vpn) (page_entry_idx vpn) p) vpn =
  h <$> lookup_pte p vpn.
Proof. apply pte_at_update_eq. Qed.

Lemma lookup_pte_update_ne h vpn vpn' p :
  (page_dir_idx vpn', page_entry_idx vpn') <> (page_dir_idx vpn, page_entry_idx vpn) ->
  lookup_pte (update_pte h (page_dir_idx vpn) (page_entry_idx vpn) p) vpn' = lookup_pte p vpn'.
Proof. intros H. apply pte_at_update_ne. congruence. Qed.

(** A valid PTE whose [rw] is the access, or an access without WRITE,
    falls through to [return true] (line 253). *)
Lemma hpf_spurious vpn rw s p :
  lookup_pte (current s) vpn = Some p -> PTE.valid p = true ->
  (PTE.rw p = rw \/ N.land rw ACCESS_WRITE = 0) ->
  handle_page_fault vpn rw s = (true, s).
Proof.
  intros Hp Hv Hc. destruct (lookup_pte_pd_of _ _ _ _ Hp) as [pd Hpd].
  unfold Src.lookup_pte in Hp. unfold Src.handle_page_fault. rewrite Hpd, Hp.
  cbn [default from_option id]. cbv zeta. rewrite Hv. cbn [negb].
  destruct Hc as [<-|Hw].
  - by rewrite N.eqb_refl.
  - rewrite Hw. cbn [N.eqb negb]. by rewrite andb_false_r.
Qed.

(** First touch: an invalid PTE (or no directory) and a free frame. *)
Lemma hpf_first_touch vpn rw s g :
  wf_proc (current s) -> in_range vpn ->
  (forall p, lookup_pte (current s) vpn = Some p -> PTE.valid p = false) ->
  alloc_scan (mapcounts s) = Some g ->
  (N.of_nat (length (mapcounts s)) <= UINT_NEG1) ->
  let r := handle_page_fault vpn rw s in
  fst r = true /\ mapcounts (snd r) = <[g := 1]> (mapcounts s) /\
  lookup_pte (current (snd r)) vpn =
    Some (PTE.mk_pte true rw (default 0 (PTE.private <$> lookup_pte (current s) vpn)) (N.of_nat g)) /\
  (forall vpn' q,
     (page_dir_idx vpn', page_entry_idx vpn') <> (page_dir_idx vpn, page_entry_idx vpn) ->
     lookup_pte (current s) vpn' = Some q -> lookup_pte (current (snd r)) vpn' = Some q) /\
  processes (snd r) = processes s /\ tlb (snd r) = tlb s.
Proof.
  intros Hwf Hr Hinv Hg Hlen.
  pose proof (fault_dir_spec vpn s Hwf Hr) as (Hmc1 & Hq1 & Ht1 & Hx & Hkeep). cbv zeta in *.
  assert (Hgl : (g < length (mapcounts s))%nat).
  { apply alloc_scan_some in Hg as [Hg _]. by eapply lookup_lt_Some. }
  assert (Hx0 : PTE.valid (default pte_zero (lookup_pte (current s) vpn)) = false).
  { destruct (lookup_pte (current s) vpn) as [p|] eqn:E; cbn; [by apply Hinv|done]. }
  unfold Src.handle_page_fault.
  revert Hmc1 Hq1 Ht1 Hx Hkeep.
  generalize (match pd_of (current s) (page_dir_idx vpn) with
              | Some _ => s
              | None => malloc_pd (page_dir_idx vpn) zero_pd s
              end) as s1.
  intros s1 Hmc1 Hq1 Ht1 Hx Hkeep. cbv zeta. rewrite Hx. cbn [default from_option id].
  rewrite Hx0. cbn [negb]. rewrite <- Hmc1 in Hg.
  rewrite (alloc_page_present vpn rw zero_pd s1 g _ Hx Hg).
  cbn [fst snd mapcounts current set_current set_mapcounts processes tlb].
  split; [|split; [by rewrite Hmc1|split; [|split; [|split; done]]]].
  - apply negb_true_iff, N.eqb_neq. unfold UINT_NEG1 in *. lia.
  - rewrite lookup_pte_update_eq.
    change (lookup_pte (current s1) vpn)
      with (pte_at (current s1) (page_dir_idx vpn) (page_entry_idx vpn)).
    rewrite Hx. destruct (lookup_pte (current s) vpn); reflexivity.
  - intros vpn' q Hne Hq'. rewrite lookup_pte_update_ne by done. by apply Hkeep.
Qed.

(** First touch with no free frame (lines 229-230). *)
Lemma hpf_full vpn rw s :
  (forall p, lookup_pte (current s) vpn = Some p -> PTE.valid p = false) ->
  alloc_scan (mapcounts s) = None ->
  handle_page_fault vpn rw s =
    (false, match pd_of (current s) (page_dir_idx vpn) with
            | Some _ => s
            | None => malloc_pd (page_dir_idx vpn) zero_pd s
            end).
Proof.
  intros Hinv Hg. unfold Src.handle_page_fault.
  assert (Hx0 : PTE.valid (default pte_zero
                  (pte_at (current (match pd_of (current s) (page_dir_idx vpn) with
                                    | Some _ => s
                                    | None => malloc_pd (page_dir_idx vpn) zero_pd s
                                    end)) (page_dir_idx vpn) (page_entry_idx vpn))) = false).
  { destruct (pd_of (current s) (page_dir_idx vpn)) as [pd|] eqn:Hpd.
    - destruct (pte_at (current s) _ _) as [p|] eqn:E; [|done]. cbn. by apply Hinv.
    - unfold pte_at. unfold pd_of at 1. rewrite malloc_pd_pdes.
      destruct (decide (page_dir_idx vpn < length (pdes (current s))))%nat.
      + rewrite list_lookup_insert_eq by done. cbn. unfold Src.zero_pd.
        destruct (replicate _ _ !! _) eqn:E; [|done].
        apply lookup_replicate in E as [-> _]. reflexivity.
      + rewrite list_insert_ge by lia. fold (pd_of (current s) (page_dir_idx vpn)).
        by rewrite Hpd. }
  assert (Hmc : mapcounts (match pd_of (current s) (page_dir_idx vpn) with
                           | Some _ => s
                           | None => malloc_pd (page_dir_idx vpn) zero_pd s
                           end) = mapcounts s) by (destruct (pd_of _ _); done).
  revert Hx0 Hmc.
  generalize (match pd_of (current s) (page_dir_idx vpn) with
              | Some _ => s
              | None => malloc_pd (page_dir_idx vpn) zero_pd s
              end) as s1.
  intros s1 Hx0 Hmc. cbv zeta. rewrite Hx0. cbn [negb].
  rewrite <- Hmc in Hg. rewrite (alloc_page_full vpn rw zero_pd s1 Hg). reflexivity.
Qed.

Lemma find_pid_first pid0 q i p :
  q !! i = Some p -> pid p = pid0 ->
  (forall j p', (j < i)%nat -> q !! j = Some p' -> pid p' <> pid0) ->
  find_pid pid0 q = Some (i, p).
Proof.
  revert i. induction q as [|p0 q IH]; intros i Hi Hp Hb; [by rewrite lookup_nil in Hi|].
  cbn [find_pid]. destruct i as [|i].
  - cbn in Hi. injection Hi as ->. by rewrite Hp, N.eqb_refl.
  - assert (Hp0 : pid p0 <> pid0) by (apply (Hb 0%nat); [lia|reflexivity]).
    apply N.eqb_neq in Hp0. rewrite Hp0. rewrite (IH i); [reflexivity|done|done|].
    intros j p' Hj Hl. apply (Hb (S j)); [lia|done].
Qed.

Lemma free_page_valid_eq vpn s p :
  lookup_pte (current s) vpn = Some p -> PTE.valid p = true ->
  free_page vpn s =
    set_current (update_pte (fun q => PTE.mk_pte false 0 (PTE.private q) 0)
                  (page_dir_idx vpn) (page_entry_idx vpn) (current s))
      (set_tlb (tlb_invalidate_pfn (PTE.pfn p) (tlb s))
        (set_mapcounts (mc_set (mapcounts s) (PTE.pfn p)
                          (u32_dec (mc_get (mapcounts s) (PTE.pfn p)))) s)).
Proof. intros Hp Hv. unfold Src.free_page. unfold Src.lookup_pte in Hp. by rewrite Hp, Hv. Qed.

(** X3: no operation leaves an invalid TLB entry with access bits.  This
    holds of the zeroed TLB at start-up, and [insert_tlb], [alloc_page],
    [free_page], [handle_page_fault] and [switch_process] keep it. *)
Theorem tlb_clean_preserved vpn rw pfn garbage pid0 nframes ntlb s :
  tlb_clean (tlb s) = true ->
  tlb_clean (tlb (init_state pid0 nframes ntlb)) = true /\
  tlb_clean (insert_tlb vpn rw pfn (tlb s)) = true /\
  tlb_clean (tlb (snd (alloc_page vpn rw garbage s))) = true /\
  tlb_clean (tlb (free_page vpn s)) = true /\
  tlb_clean (tlb (snd (handle_page_fault vpn rw s))) = true /\
  tlb_clean (tlb (switch_process pid0 s)) = true.
Proof.
  intros Hc. split; [|split; [|split; [|split; [|split]]]].
  - cbn [tlb Src.init_state]. induction ntlb as [|n IH]; [done|].
    cbn [replicate]. by rewrite tlb_clean_cons, IH.
  - by apply tlb_clean_insert.
  - pose proof (alloc_page_frame vpn rw garbage s) as (_ & Ht & _). cbv zeta in Ht.
    by rewrite Ht.
  - unfold Src.free_page. destruct (pte_at _ _ _) as [q|]; [destruct (PTE.valid q)|];
      cbn [tlb set_current set_tlb set_mapcounts]; auto using tlb_clean_invalidate.
  - pose proof (hpf_frame vpn rw s) as (_ & Ht & _). cbv zeta in Ht. by rewrite Ht.
  - rewrite switch_tlb. by apply tlb_clean_flush.
Qed.

(** X8: [free_page] on a valid PTE clears it (valid, rw and pfn become 0,
    [private] stays), leaves every other PTE, decrements the frame's mapcount
    with unsigned wrap-around (0 becomes 2^32 - 1) and no other, invalidates
    exactly the valid TLB entries caching that frame (each becomes invalid
    with [rw] and [pfn] 0, keeping its vpn and [private]; afterwards no valid
    entry holds the frame; every other entry is unchanged), and keeps the
    ready queue, [ptbr] and the heap. *)
Theorem free_page_valid vpn s p :
  lookup_pte (current s) vpn = Some p -> PTE.valid p = true ->
  let s' := free_page vpn s in
  lookup_pte (current s') vpn = Some (PTE.mk_pte false 0 (PTE.private p) 0) /\
  (forall vpn',
     (page_dir_idx vpn', page_entry_idx vpn') <> (page_dir_idx vpn, page_entry_idx vpn) ->
     lookup_pte (current s') vpn' = lookup_pte (current s) vpn') /\
  (forall m, mapcounts s !! N.to_nat (PTE.pfn p) = Some m -> m < 2 ^ 32 ->
     mapcounts s' !! N.to_nat (PTE.pfn p) = Some (if m =? 0 then UINT_NEG1 else m - 1)) /\
  (forall f, f <> N.to_nat (PTE.pfn p) -> mapcounts s' !! f = mapcounts s !! f) /\
  length (tlb s') = length (tlb s) /\
  (forall e, e ∈ tlb s' -> TLBE.valid e = true -> TLBE.pfn e <> PTE.pfn p) /\
  (forall i e, tlb s !! i = Some e -> TLBE.valid e = true -> TLBE.pfn e = PTE.pfn p ->
     tlb s' !! i = Some (TLBE.mk_tlb_entry false (TLBE.vpn e) 0 0 (TLBE.private e))) /\
  (forall i e, tlb s !! i = Some e -> (TLBE.valid e = false \/ TLBE.pfn e <> PTE.pfn p) ->
     tlb s' !! i = Some e) /\
  processes s' = processes s /\ ptbr s' = ptbr s /\ brk s' = brk s.
Proof.
  intros Hp Hv. cbv zeta. rewrite (free_page_valid_eq vpn s p Hp Hv).
  cbn [current set_current set_tlb set_mapcounts mapcounts tlb processes ptbr brk].
  split; [rewrite lookup_pte_update_eq, Hp; reflexivity|].
  split; [intros vpn' Hne; by rewrite lookup_pte_update_ne|].
  split.
  { intros m Hm Hlt. rewrite mc_set_lookup, decide_True by done. rewrite Hm. cbn.
    f_equal. unfold mc_get. rewrite Hm. cbn [default from_option].
    destruct (N.eqb_spec m 0) as [->|Hm0]; [reflexivity|]. apply u32_dec_small; lia. }
  split; [intros f Hf; by rewrite mc_set_lookup, decide_False|].
  split; [unfold tlb_invalidate_pfn; apply length_map|].
  split.
  { intros e He Hev. apply list_elem_of_lookup_1 in He as [i Hi].
    rewrite tlb_invalidate_pfn_lookup in Hi.
    destruct (tlb s !! i) as [e0|]; [|discriminate]. cbn in Hi. injection Hi as He. subst e.
    destruct (TLBE.valid e0 && (TLBE.pfn e0 =? PTE.pfn p)) eqn:E; cbn in Hev |- *;
      [discriminate|].
    intros Heq. rewrite Hev, Heq, N.eqb_refl in E. discriminate. }
  split.
  { intros i e Hi Hev Hpf. rewrite tlb_invalidate_pfn_lookup, Hi. cbn.
    by rewrite Hev, Hpf, N.eqb_refl. }
  split.
  { intros i e Hi Hc. rewrite tlb_invalidate_pfn_lookup, Hi. cbn.
    destruct Hc as [Hc|Hc]; [rewrite Hc|apply N.eqb_neq in Hc; rewrite Hc, andb_false_r];
      reflexivity. }
  repeat split.
Qed.

(** X9: after [free_page] of a valid PTE, on a TLB whose invalid entries
    have [rw = 0], no lookup of any vpn and access returns the freed frame. *)
Theorem free_page_no_stale_hit vpn s p :
  tlb_clean (tlb s) = true -> lookup_pte (current s) vpn = Some p -> PTE.valid p = true ->
  forall vpn' acc, lookup_tlb vpn' acc (tlb (free_page vpn s)) <> Some (PTE.pfn p).
Proof.
  intros Hc Hp Hv vpn' acc Hl. rewrite (free_page_valid_eq vpn s p Hp Hv) in Hl.
  cbn [tlb set_current set_tlb set_mapcounts] in Hl.
  apply lookup_tlb_some_iff in Hl as (i & e & Hi & _ & Hr & Hf & _).
  rewrite tlb_invalidate_pfn_lookup in Hi.
  destruct (tlb s !! i) as [e0|] eqn:E0; [|discriminate].
  cbn in Hi. injection Hi as He. subst e.
  destruct (TLBE.valid e0 && (TLBE.pfn e0 =? PTE.pfn p)) eqn:E; cbn in Hr, Hf.
  - apply Hr. apply N.land_0_l.
  - destruct (TLBE.valid e0) eqn:Hv0.
    + rewrite Hf, N.eqb_refl in E. discriminate.
    + apply Hr. rewrite (tlb_clean_lookup _ i e0 Hc E0 Hv0). apply N.land_0_l.
Qed.

(** X10: [alloc_page] on an invalid PTE of an existing page-table page,
    followed by [free_page] of the same vpn, restores every mapcount and
    leaves the PTE invalid with rw and pfn 0 and its [private] kept; every
    other PTE is as before. *)
Theorem alloc_free_roundtrip vpn rw garbage s p :
  lookup_pte (current s) vpn = Some p -> PTE.valid p = false ->
  alloc_scan (mapcounts s) <> None ->
  let s' := free_page vpn (snd (alloc_page vpn rw garbage s)) in
  mapcounts s' = mapcounts s /\
  lookup_pte (current s') vpn = Some (PTE.mk_pte false 0 (PTE.private p) 0) /\
  (forall vpn',
     (page_dir_idx vpn', page_entry_idx vpn') <> (page_dir_idx vpn, page_entry_idx vpn) ->
     lookup_pte (current s') vpn' = lookup_pte (current s) vpn') /\
  processes s' = processes s /\ brk s' = brk s.
Proof.
  intros Hp Hv Hsc. destruct (alloc_scan (mapcounts s)) as [g|] eqn:Hg; [|congruence].
  pose proof (alloc_scan_some _ _ Hg) as [Hg0 _].
  assert (Hgl : (g < length (mapcounts s))%nat) by (by eapply lookup_lt_Some).
  cbv zeta. rewrite (alloc_page_present vpn rw garbage s g p Hp Hg). cbn [snd].
  assert (Hp1 : lookup_pte (current (set_current
             (update_pte (fun q => PTE.mk_pte true rw (PTE.private q) (N.of_nat g))
                (page_dir_idx vpn) (page_entry_idx vpn) (current s))
             (set_mapcounts (<[g:=1]> (mapcounts s)) s))) vpn =
           Some (PTE.mk_pte true rw (PTE.private p) (N.of_nat g))).
  { cbn [current set_current]. rewrite lookup_pte_update_eq, Hp. reflexivity. }
  rewrite (free_page_valid_eq vpn _ _ Hp1 eq_refl).
  cbn [current set_current set_tlb set_mapcounts mapcounts processes brk PTE.pfn].
  split; [|split; [|split; [|split]]].
  - unfold mc_set, mc_get. rewrite !Nat2N.id, list_lookup_insert_eq by done.
    change (u32_dec (default 0 (Some 1))) with 0.
    rewrite list_insert_insert, decide_True by done. by apply list_insert_id.
  - rewrite !lookup_pte_update_eq, Hp. reflexivity.
  - intros vpn' Hne. by rewrite !lookup_pte_update_ne.
  - reflexivity.
  - reflexivity.
Qed.

(** X11: a fault on a valid PTE whose [rw] equals the access, or with an
    access lacking WRITE, returns true and changes nothing. *)
Theorem handle_page_fault_spurious vpn rw s p :
  lookup_pte (current s) vpn = Some p -> PTE.valid p = true ->
  (PTE.rw p = rw \/ N.land rw ACCESS_WRITE = 0) ->
  handle_page_fault vpn rw s = (true, s).
Proof. apply hpf_spurious. Qed.

(** X12: a fault on an invalid PTE, or under a missing page-table page, with
    a free frame returns true; the smallest free frame [g] gets mapcount 1
    and the PTE becomes valid with the access as [rw], frame [g] and its
    old [private] (0 for a new page); other PTEs, the ready queue and the
    TLB are unchanged. *)
Theorem handle_page_fault_first_touch vpn rw s g :
  wf_proc (current s) -> in_range vpn ->
  (forall p, lookup_pte (current s) vpn = Some p -> PTE.valid p = false) ->
  alloc_scan (mapcounts s) = Some g ->
  (N.of_nat (length (mapcounts s)) <= UINT_NEG1) ->
  let r := handle_page_fault vpn rw s in
  fst r = true /\ mapcounts (snd r) = <[g := 1]> (mapcounts s) /\
  lookup_pte (current (snd r)) vpn =
    Some (PTE.mk_pte true rw (default 0 (PTE.private <$> lookup_pte (current s) vpn))
            (N.of_nat g)) /\
  (forall vpn' q,
     (page_dir_idx vpn', page_entry_idx vpn') <> (page_dir_idx vpn, page_entry_idx vpn) ->
     lookup_pte (current s) vpn' = Some q -> lookup_pte (current (snd r)) vpn' = Some q) /\
  processes (snd r) = processes s /\ tlb (snd r) = tlb s.
Proof. apply hpf_first_touch. Qed.

(** X13: a fault on an invalid PTE with no free frame returns false and
    changes no mapcount.  With the page-table page present nothing changes;
    with it missing, the zeroed page the handler allocated stays in the
    page directory. *)
Theorem handle_page_fault_full vpn rw s :
  (forall p, lookup_pte (current s) vpn = Some p -> PTE.valid p = false) ->
  alloc_scan (mapcounts s) = None ->
  let r := handle_page_fault vpn rw s in
  fst r = false /\ mapcounts (snd r) = mapcounts s /\
  (is_Some (pd_of (current s) (page_dir_idx vpn)) -> snd r = s) /\
  (pd_of (current s) (page_dir_idx vpn) = None ->
   (page_dir_idx vpn < length (pdes (current s)))%nat ->
   pd_of (current (snd r)) (page_dir_idx vpn) = Some (brk s, zero_pd) /\
   brk (snd r) = S (brk s)).
Proof.
  intros Hinv Hg. cbv zeta. rewrite (hpf_full vpn rw s Hinv Hg). cbn [fst snd].
  destruct (pd_of (current s) (page_dir_idx vpn)) as [pd|] eqn:Hpd.
  - split; [done|]. split; [done|]. split; [done|]. discriminate.
  - split; [done|]. split; [done|]. split; [intros [? Hc]; discriminate|].
    intros _ Hl. split; [by apply pd_of_malloc|done].
Qed.

(** X14: after a successful first-touch fault, the same fault again returns
    true and changes nothing. *)
Theorem handle_page_fault_idempotent vpn rw s g :
  wf_proc (current s) -> in_range vpn ->
  (forall p, lookup_pte (current s) vpn = Some p -> PTE.valid p = false) ->
  alloc_scan (mapcounts s) = Some g ->
  (N.of_nat (length (mapcounts s)) <= UINT_NEG1) ->
  let s1 := snd (handle_page_fault vpn rw s) in
  handle_page_fault vpn rw s1 = (true, s1).
Proof.
  intros Hwf Hr Hinv Hg Hlen. cbv zeta.
  pose proof (hpf_first_touch vpn rw s g Hwf Hr Hinv Hg Hlen) as (_ & _ & Hl & _).
  cbv zeta in Hl.
  eapply hpf_spurious; [exact Hl|reflexivity|left; reflexivity].
Qed.

(** X15: [handle_page_fault] and [alloc_page] never touch the TLB, the ready
    queue or [ptbr]; [alloc_page] keeps the running process's pid. *)
Theorem fault_alloc_keep_tlb_queue vpn rw garbage s :
  let r := snd (handle_page_fault vpn rw s) in
  let a := snd (alloc_page vpn rw garbage s) in
  processes r = processes s /\ tlb r = tlb s /\ ptbr r = ptbr s /\
  processes a = processes s /\ tlb a = tlb s /\ ptbr a = ptbr s /\
  pid (current a) = pid (current s).
Proof.
  pose proof (hpf_frame vpn rw s) as (H1 & H2 & H3).
  pose proof (alloc_page_frame vpn rw garbage s) as (H4 & H5 & H6 & H7 & _).
  cbv zeta in *. repeat split; assumption.
Qed.

(** X16: a copy-on-write fault (READ in [rw], WRITE in [private], mapcount
    above 1) with no free frame returns true, points the PTE at frame
    [(unsigned)-1] with WRITE added to [rw], and decrements the old frame's
    mapcount, since line 239 does not check [alloc_page]'s result. *)
Theorem cow_fault_full_stores_neg1 vpn s p m :
  lookup_pte (current s) vpn = Some p -> PTE.valid p = true ->
  N.land (PTE.rw p) ACCESS_READ <> 0 -> N.land (PTE.private p) ACCESS_WRITE <> 0 ->
  mapcounts s !! N.to_nat (PTE.pfn p) = Some m -> 1 < m < 2 ^ 32 ->
  alloc_scan (mapcounts s) = None ->
  let r := handle_page_fault vpn ACCESS_WRITE s in
  fst r = true /\
  lookup_pte (current (snd r)) vpn =
    Some (PTE.mk_pte true (N.lor (PTE.rw p) ACCESS_WRITE) (PTE.private p) UINT_NEG1) /\
  mapcounts (snd r) = <[N.to_nat (PTE.pfn p) := m - 1]> (mapcounts s) /\
  processes (snd r) = processes s /\ tlb (snd r) = tlb s.
Proof.
  intros Hp Hv Hread Hpriv Hm Hmb Hg.
  destruct (lookup_pte_pd_of _ _ _ _ Hp) as [pd Hpd].
  unfold Src.lookup_pte in Hp.
  assert (Hrw : (PTE.rw p =? ACCESS_WRITE) = false).
  { apply N.eqb_neq. intros E. apply Hread. rewrite E. reflexivity. }
  assert (Hmg : mc_get (mapcounts s) (PTE.pfn p) = m) by (unfold mc_get; by rewrite Hm).
  cbv zeta. unfold Src.handle_page_fault. rewrite Hpd, Hp.
  cbn [default from_option id]. cbv zeta.
  rewrite Hv, Hrw. cbn [negb andb].
  replace (N.land ACCESS_WRITE ACCESS_WRITE =? 0) with false by reflexivity.
  apply N.eqb_neq in Hread, Hpriv. rewrite Hread, Hpriv. cbn [negb andb].
  rewrite Hmg. replace (1 <? m) with true by (symmetry; apply N.ltb_lt; lia).
  rewrite (alloc_page_full vpn 3 zero_pd s Hg).
  cbn [fst snd current set_current set_mapcounts mapcounts processes tlb].
  split; [done|]. split; [|split; [|split; done]].
  - unfold Src.lookup_pte. rewrite !pte_at_update_eq, Hp.
    destruct p as [v r pr pf]. cbn in Hv |- *. by subst v.
  - unfold mc_set. rewrite Hmg. f_equal. apply u32_dec_small; lia.
Qed.

(** X17: [switch_process] to a pid in the ready queue resumes the first
    process with that pid: it becomes [current], leaves the queue, the
    previous process goes to the tail, [ptbr] points at the resumed
    process, and mapcounts, the heap and the number of live processes are
    unchanged. *)
Theorem switch_process_resume pid0 s i p :
  processes s !! i = Some p -> pid p = pid0 ->
  (forall j q, (j < i)%nat -> processes s !! j = Some q -> pid q <> pid0) ->
  let s' := switch_process pid0 s in
  current s' = p /\ processes s' = delete i (processes s) ++ [current s] /\
  ptbr s' = paddr p /\ mapcounts s' = mapcounts s /\ brk s' = brk s /\
  length (live s') = length (live s).
Proof.
  intros Hi Hp Hb. cbv zeta. unfold switch_process.
  rewrite (find_pid_first pid0 (processes s) i p Hi Hp Hb).
  cbn [current processes ptbr mapcounts brk set_ptbr set_current set_processes set_tlb].
  split; [done|]. split; [done|]. split; [done|]. split; [done|]. split; [done|].
  unfold live. cbn [current processes set_ptbr set_current set_processes set_tlb length].
  rewrite length_app, length_delete by (rewrite Hi; eauto). cbn.
  pose proof (lookup_lt_Some _ _ _ Hi). lia.
Qed.

(** X18: when the valid TLB entries form a prefix, the flush of
    [switch_process] invalidates every entry and keeps the TLB's length. *)
Theorem switch_process_flush_packed pid0 s :
  tlb_packed (tlb s) = true ->
  length (tlb (switch_process pid0 s)) = length (tlb s) /\
  Forall (fun e => TLBE.valid e = false) (tlb (switch_process pid0 s)).
Proof. intros H. rewrite switch_tlb. by apply flush_packed. Qed.

End Extras.

(** ** Claims settled on concrete inputs, and witnesses *)

(** C4: the TLB flush of [switch_process] stops at the first invalid entry.
    After vpn 0 of [s_two] is freed, slot 0 is a hole.  Switching to a new
    process then leaves the entry of slot 1 valid: it still caches vpn 5 on
    frame 1 of the previous process. *)
Theorem switch_flush_stops_at_hole :
  (TLBE.valid <$> tlb s_hole !! 0%nat) = Some false /\
  ((fun e => (TLBE.valid e, TLBE.vpn e, TLBE.pfn e)) <$> tlb (switch_process 2 s_hole) !! 1%nat)
    = Some (true, 5%nat, 1).
Proof. vm_compute. split; reflexivity. Qed.


(** C7: [insert_tlb] stops at the first invalid entry, so an existing valid
    entry for the same vpn behind a hole is not updated.  A second valid
    entry for vpn 5 is created instead. *)
Theorem insert_tlb_duplicates_behind_hole :
  (TLBE.valid <$> tlb s_hole !! 0%nat) = Some false /\
  length (List.filter (fun e => TLBE.valid e && (TLBE.vpn e =? 5)%nat) (tlb s_hole)) = 1%nat /\
  length (List.filter (fun e => TLBE.valid e && (TLBE.vpn e =? 5)%nat)
            (insert_tlb 5 ACCESS_READ 1 (tlb s_hole))) = 2%nat.
Proof. vm_compute. split; [|split]; reflexivity. Qed.

Lemma wf_proc_init n : wf_proc 16 n (current (init_state n 1 4 4)).
Proof.
  split; [apply length_replicate|].
  intros d pd H. simpl in H. apply lookup_replicate in H as [H _]. discriminate.
Qed.

Lemma alloc_page_smallest_free_witness :
  fst (alloc_page 16 5 ACCESS_WRITE (zero_pd 16) (init_state 1 1 4 4)) = 0.
Proof.
  refine (proj1 (proj1 (alloc_page_smallest_free 16 1 5 ACCESS_WRITE (zero_pd 16)
                          (init_state 1 1 4 4) (wf_proc_init 1) _ _) 0%nat _ _)).
  - unfold in_range. lia.
  - reflexivity.
  - reflexivity.
  - intros g Hg. lia.
Defined.

Lemma free_page_invalid_noop_witness : free_page 16 0 s_hole = s_hole.
Proof.
  apply (free_page_invalid_noop 16 0 s_hole).
  intros p Hp. vm_compute in Hp. injection Hp as <-. reflexivity.
Defined.

Lemma switch_own_pid_forks_witness :
  pid (current (switch_process 1 (init_state 1 1 4 4))) = 1.
Proof.
  exact (proj1 (proj2 (switch_own_pid_forks (init_state 1 1 4 4) eq_refl ltac:(simpl; lia)))).
Defined.

(** C5: the copy-on-write path calls [alloc_page] (line 239) without
    checking its result.  With no free frame it still returns true, and the
    PTE is left pointing at frame [(unsigned)-1].  Separately, a valid
    read-write PTE with [private = 0] makes a WRITE fault return false,
    because the test of line 234 is [pte->rw != rw] rather than "rw lacks
    write". *)
Theorem handle_page_fault_result_mismatch :
  alloc_scan (mapcounts s_full) = None /\
  fst (handle_page_fault 16 0 ACCESS_WRITE s_full) = true /\
  (PTE.pfn <$> lookup_pte 16 (current (snd (handle_page_fault 16 0 ACCESS_WRITE s_full))) 0)
    = Some UINT_NEG1 /\
  lookup_pte 16 (current s_rw) 0 = Some (PTE.mk_pte true 3 0 0) /\
  fst (handle_page_fault 16 0 ACCESS_WRITE s_rw) = false.
Proof. vm_compute. repeat split. Qed.

(** C2: the copy-on-write [alloc_page] of line 239 is not checked.  At
    [s_full] the child's PTE of vpn 0 is valid with [rw = READ] and
    [private = WRITE], and frame 0 has mapcount 2, but no frame is free.
    The WRITE fault returns true, no frame gets mapcount 1 (the only frame
    drops to 1), and the PTE is pointed at frame [(unsigned)-1] with
    READ|WRITE. *)
Theorem cow_write_fault_no_free_frame :
  lookup_pte 16 (current s_full) 0 = Some (PTE.mk_pte true ACCESS_READ ACCESS_WRITE 0) /\
  mapcounts s_full = [2] /\
  fst (handle_page_fault 16 0 ACCESS_WRITE s_full) = true /\
  mapcounts (snd (handle_page_fault 16 0 ACCESS_WRITE s_full)) = [1] /\
  lookup_pte 16 (current (snd (handle_page_fault 16 0 ACCESS_WRITE s_full))) 0
    = Some (PTE.mk_pte true (N.lor ACCESS_READ ACCESS_WRITE) ACCESS_WRITE UINT_NEG1).
Proof. vm_compute. repeat split. Qed.

Lemma cow_write_fault_witness :
  fst (handle_page_fault 16 0 ACCESS_WRITE s_cow) = true.
Proof.
  refine (proj1 (cow_write_fault 16 0 s_cow (PTE.mk_pte true 1 2 0) _ _ _ _ _ _)).
  - vm_compute. reflexivity.
  - reflexivity.
  - vm_compute. discriminate.
  - vm_compute. reflexivity.
  - vm_compute. discriminate.
  - vm_compute. reflexivity.
Defined.


Lemma switch_process_forks_child_witness :
  pid (current (switch_process 2 s_one)) = 2.
Proof.
  refine (proj1 (switch_process_forks_child 16 2 s_one _ _ _)).
  - vm_compute. reflexivity.
  - vm_compute. repeat constructor.
  - intros f m Hm. vm_compute in Hm.
    destruct f as [|[|[|[|f]]]]; [..|discriminate]; injection Hm as <-;
      vm_compute; reflexivity.
Defined.

(** C1: two [alloc_page] calls on the same vpn leave frame 0 counted once
    while no PTE maps it. *)
Lemma refcount_conserved_fails_double_alloc :
  exists s, rtc (vm_step 1 1) (init_state 1 1 2 0) s /\
            ~ refcount_conserved s /\ ~ refcount_conserved_u32 s.
Proof.
  exists (snd (alloc_page 1 0 ACCESS_READ [pte_zero]
            (snd (alloc_page 1 0 ACCESS_READ [pte_zero] (init_state 1 1 2 0))))).
  split; [|split].
  - eapply rtc_l.
    { apply (vs_alloc 1 1 0 ACCESS_READ [pte_zero]);
        [vm_compute; lia|reflexivity|vm_compute; discriminate]. }
    eapply rtc_l.
    { apply (vs_alloc 1 1 0 ACCESS_READ [pte_zero]);
        [vm_compute; lia|reflexivity|vm_compute; discriminate]. }
    apply rtc_refl.
  - intros H. specialize (H 0%nat ltac:(vm_compute; lia)). vm_compute in H. discriminate.
  - intros H. specialize (H 0%nat ltac:(vm_compute; lia)). vm_compute in H. discriminate.
Qed.

Lemma refcount_conserved_reachable_witness : refcount_conserved_u32 s_cow.
Proof.
  apply (refcount_conserved_reachable 16 1 1 4 4).
  unfold s_cow, s_one.
  eapply rtc_l.
  { apply (vf_fault 16 1 0 ACCESS_WRITE); [vm_compute; lia|intros _; vm_compute; discriminate]. }
  eapply rtc_l; [apply (vf_switch 16 1 2)|]. apply rtc_refl.
Defined.

(** ** Witnesses of the further properties *)

Lemma lookup_tlb_clean_valid_witness :
  exists e, e ∈ tlb s_two /\ TLBE.valid e = true /\ TLBE.vpn e = 0%nat /\ TLBE.pfn e = 0 /\
            N.land (TLBE.rw e) ACCESS_WRITE <> 0.
Proof.
  apply (lookup_tlb_clean_valid 0 ACCESS_WRITE (tlb s_two) 0); vm_compute; reflexivity.
Defined.

Lemma tlb_clean_preserved_witness : tlb_clean (tlb (switch_process 3 s_hole)) = true.
Proof.
  exact (proj2 (proj2 (proj2 (proj2 (proj2
           (tlb_clean_preserved 16 1 0 ACCESS_READ 0 [] 3 1 4 s_hole
              ltac:(vm_compute; reflexivity))))))).
Defined.

Lemma insert_tlb_lookup_witness :
  lookup_tlb 3 ACCESS_READ (insert_tlb 3 ACCESS_READ 9 (tlb (init_state 1 1 1 4))) = Some 9.
Proof.
  apply (insert_tlb_lookup 3 ACCESS_READ 9 ACCESS_READ).
  - exists tlb_zero. split; [|left; reflexivity].
    apply (list_elem_of_lookup_2 _ 0%nat). reflexivity.
  - vm_compute. discriminate.
Defined.

Lemma free_page_valid_witness :
  lookup_pte 16 (current (free_page 16 0 s_two)) 0 = Some (PTE.mk_pte false 0 0 0).
Proof.
  exact (proj1 (free_page_valid 16 0 s_two (PTE.mk_pte true 2 0 0)
                  ltac:(vm_compute; reflexivity) eq_refl)).
Defined.

Lemma free_page_no_stale_hit_witness :
  lookup_tlb 0 ACCESS_WRITE (tlb (free_page 16 0 s_two)) <> Some 0.
Proof.
  exact (free_page_no_stale_hit 16 0 s_two (PTE.mk_pte true 2 0 0)
           ltac:(vm_compute; reflexivity) ltac:(vm_compute; reflexivity) eq_refl
           0 ACCESS_WRITE).
Defined.

Lemma alloc_free_roundtrip_witness :
  mapcounts (free_page 16 0 (snd (alloc_page 16 0 ACCESS_WRITE [] s_hole))) = mapcounts s_hole.
Proof.
  exact (proj1 (alloc_free_roundtrip 16 0 ACCESS_WRITE [] s_hole (PTE.mk_pte false 0 0 0)
                  ltac:(vm_compute; reflexivity) eq_refl ltac:(vm_compute; discriminate))).
Defined.

Lemma handle_page_fault_spurious_witness :
  handle_page_fault 16 0 ACCESS_WRITE s_two = (true, s_two).
Proof.
  apply (handle_page_fault_spurious 16 0 ACCESS_WRITE s_two (PTE.mk_pte true 2 0 0)).
  - vm_compute. reflexivity.
  - reflexivity.
  - left. reflexivity.
Defined.

Lemma handle_page_fault_first_touch_witness :
  fst (handle_page_fault 16 0 ACCESS_WRITE (init_state 1 1 4 4)) = true.
Proof.
  refine (proj1 (handle_page_fault_first_touch 16 1 0 ACCESS_WRITE (init_state 1 1 4 4) 0
                   (wf_proc_init 1) _ _ _ _)).
  - unfold in_range. lia.
  - intros p Hp. vm_compute in Hp. discriminate.
  - reflexivity.
  - cbn. unfold UINT_NEG1. lia.
Defined.

Lemma handle_page_fault_full_witness :
  fst (handle_page_fault 16 0 ACCESS_READ (init_state 1 1 0 4)) = false.
Proof.
  refine (proj1 (handle_page_fault_full 16 0 ACCESS_READ (init_state 1 1 0 4) _ _)).
  - intros p Hp. vm_compute in Hp. discriminate.
  - reflexivity.
Defined.

Lemma handle_page_fault_idempotent_witness :
  handle_page_fault 16 0 ACCESS_WRITE s_one = (true, s_one).
Proof.
  unfold s_one.
  refine (handle_page_fault_idempotent 16 1 0 ACCESS_WRITE (init_state 1 1 4 4) 0
            (wf_proc_init 1) _ _ _ _).
  - unfold in_range. lia.
  - intros p Hp. vm_compute in Hp. discriminate.
  - reflexivity.
  - cbn. unfold UINT_NEG1. lia.
Defined.

Lemma cow_fault_full_stores_neg1_witness :
  fst (handle_page_fault 16 0 ACCESS_WRITE s_full) = true.
Proof.
  refine (proj1 (cow_fault_full_stores_neg1 16 0 s_full (PTE.mk_pte true 1 2 0) 2
                   _ eq_refl _ _ _ _ _)).
  - vm_compute. reflexivity.
  - vm_compute. discriminate.
  - vm_compute. discriminate.
  - vm_compute. reflexivity.
  - lia.
  - vm_compute. reflexivity.
Defined.

Lemma switch_process_resume_witness :
  pid (current (switch_process 1 s_cow)) = 1.
Proof.
  refine (eq_trans (f_equal pid (proj1 (switch_process_resume 1 s_cow 0
            (default (current s_cow) (processes s_cow !! 0%nat)) _ _ _))) _).
  - vm_compute. reflexivity.
  - vm_compute. reflexivity.
  - intros j q Hj. lia.
  - vm_compute. reflexivity.
Defined.

Lemma switch_process_flush_packed_witness :
  Forall (fun e => TLBE.valid e = false) (tlb (switch_process 3 s_two)).
Proof.
  exact (proj2 (switch_process_flush_packed 3 s_two ltac:(vm_compute; reflexivity))).
Defined.

Lemma insert_tlb_packed_witness :
  tlb_packed (insert_tlb 7 ACCESS_READ 2 (tlb s_two)) = true.
Proof. apply insert_tlb_packed. vm_compute. reflexivity. Defined.
